(** * Association metrics on simple baskets

    A shallow embedding of [metrics-example.py]: the contingency table of
    two items over a corpus of baskets, the generalized mutual information
    and the log-likelihood ratio derived from it, and the stand-alone
    local mutual information.

    Numbers.  Python's [int] is unbounded and is modelled by [Z].  The
    program's [float] values are modelled by the real numbers [R]: a true
    division is the exact quotient and [math.log2], [math.log] are the exact
    logarithms, so every statement about these definitions is a statement
    of exact arithmetic and says nothing about the rounding or the range
    of binary64.  The exceptions that the arithmetic can raise
    ([ZeroDivisionError] for a zero divisor, [ValueError] for a logarithm
    outside its domain) are kept, as values of the [result] type.

    Where rounding decides a statement, the constructor and
    [log_likelihood()] are modelled a second time over binary64
    ([ContingencyTable64]), with the logarithm of the C library as a
    parameter. *)

From Stdlib Require Import ZArith Reals Lra Lia Floats.
From stdpp Require Import base list gmap sets strings.

(** ** Python values and exceptions *)

Inductive exn : Set :=
  | ZeroDivisionError
  | ValueError.

Inductive result (A : Type) : Type :=
  | Ok (a : A)
  | Raise (e : exn).

Arguments Ok {A} a.
Arguments Raise {A} e.

#[global] Instance result_ret : MRet result := λ A, Ok.

#[global] Instance result_bind : MBind result := λ A B f m,
  match m with
  | Ok a => f a
  | Raise e => Raise e
  end.

(** [a / b] on two [int]s: the quotient as a float, [ZeroDivisionError]
    when [b] is [0]. *)
Definition int_truediv (a b : Z) : result R :=
  if decide (b = 0%Z) then Raise ZeroDivisionError
  else Ok (IZR a / IZR b)%R.

(** [a / b] when one operand is a float ([a] has been converted). *)
Definition float_truediv (a b : R) : result R :=
  if Req_dec_T b 0%R then Raise ZeroDivisionError
  else Ok (a / b)%R.

(** The base-2 logarithm of a positive real. *)
Definition Rlog2 (x : R) : R := (ln x / ln 2)%R.

(** [math.log2(x)]: [ValueError] unless [x] is positive. *)
Definition math_log2 (x : R) : result R :=
  if Rlt_dec 0%R x then Ok (Rlog2 x) else Raise ValueError.

(** [math.log(x)]: [ValueError] unless [x] is positive. *)
Definition math_log (x : R) : result R :=
  if Rlt_dec 0%R x then Ok (ln x) else Raise ValueError.

(** [sum(xs)] on a list of [int]s: a left fold from [0]. *)
Definition py_sum (xs : list Z) : Z := fold_left Z.add xs 0%Z.

(** ** Data model *)

Abbreviation Item := string (only parsing).
Abbreviation Basket := (gset string) (only parsing).

(** [sum([1 for b in baskets if P b])] *)
Definition count_if (P : Basket → Prop) `{!∀ b, Decision (P b)}
    (baskets : list Basket) : Z :=
  py_sum ((λ _ : Basket, 1%Z) <$> filter P baskets).

(** [sum([len(b) for b in baskets])] *)
Definition total_len (baskets : list Basket) : Z :=
  py_sum ((λ b : Basket, Z.of_nat (size b)) <$> baskets).

(** ** The contingency table *)

Module ContingencyTable.

Record t : Type := mk {
  i : Item;
  j : Item;
  baskets : list Basket;
  O_11 : Z;
  O_12 : Z;
  O_21 : Z;
  O_22 : Z;
  C_1 : Z;
  C_2 : Z;
  R_1 : Z;
  R_2 : Z;
  N : Z;
  E_11 : R;
  E_21 : R;
  E_12 : R;
  E_22 : R
}.

(** [ContingencyTable(i, j, baskets)] *)
Definition __init__ (i j : Item) (baskets : list Basket) : result t :=
  let O_11 := count_if (λ b, (i ∈ b) ∧ (j ∈ b)) baskets in
  let O_12 := count_if (λ b, (i ∈ b) ∧ (j ∉ b)) baskets in
  let O_21 := count_if (λ b, (i ∉ b) ∧ (j ∈ b)) baskets in
  let O_22 := count_if (λ b, (i ∉ b) ∧ (j ∉ b)) baskets in
  let C_1 := (O_11 + O_21)%Z in
  let C_2 := (O_12 + O_22)%Z in
  let R_1 := (O_11 + O_12)%Z in
  let R_2 := (O_21 + O_22)%Z in
  let N := (C_1 + C_2)%Z in
  E_11 ← int_truediv (R_1 * C_1) N;
  E_21 ← int_truediv (R_2 * C_1) N;
  E_12 ← int_truediv (R_1 * C_2) N;
  E_22 ← int_truediv (R_2 * C_2) N;
  mret (mk i j baskets O_11 O_12 O_21 O_22 C_1 C_2 R_1 R_2 N
           E_11 E_21 E_12 E_22).

(** [self.mutual_information()] *)
Definition mutual_information (self : t) : result R :=
  x11 ← (if decide (O_11 self > 0)%Z
         then q ← float_truediv (IZR (O_11 self)) (E_11 self);
              l ← math_log2 q; mret (IZR (O_11 self) * l)%R
         else mret 0%R);
  x12 ← (if decide (O_12 self > 0)%Z
         then q ← float_truediv (IZR (O_12 self)) (E_12 self);
              l ← math_log2 q; mret (IZR (O_12 self) * l)%R
         else mret 0%R);
  x21 ← (if decide (O_21 self > 0)%Z
         then q ← float_truediv (IZR (O_21 self)) (E_21 self);
              l ← math_log2 q; mret (IZR (O_21 self) * l)%R
         else mret 0%R);
  x22 ← (if decide (O_22 self > 0)%Z
         then q ← float_truediv (IZR (O_22 self)) (E_22 self);
              l ← math_log2 q; mret (IZR (O_22 self) * l)%R
         else mret 0%R);
  mret (x11 + x12 + x21 + x22)%R.

(** [self.log_likelihood()] *)
Definition log_likelihood (self : t) : result R :=
  x11 ← (if decide (O_11 self > 0)%Z
         then q ← float_truediv (IZR (O_11 self)) (E_11 self);
              l ← math_log q; mret (IZR (O_11 self) * l)%R
         else mret 0%R);
  x12 ← (if decide (O_12 self > 0)%Z
         then q ← float_truediv (IZR (O_12 self)) (E_12 self);
              l ← math_log q; mret (IZR (O_12 self) * l)%R
         else mret 0%R);
  x21 ← (if decide (O_21 self > 0)%Z
         then q ← float_truediv (IZR (O_21 self)) (E_21 self);
              l ← math_log q; mret (IZR (O_21 self) * l)%R
         else mret 0%R);
  x22 ← (if decide (O_22 self > 0)%Z
         then q ← float_truediv (IZR (O_22 self)) (E_22 self);
              l ← math_log q; mret (IZR (O_22 self) * l)%R
         else mret 0%R);
  mret (2 * (x11 + x12 + x21 + x22))%R.

End ContingencyTable.

(** ** Local mutual information *)

(** [local_mutual_information(i, j, baskets)] *)
Definition local_mutual_information (i j : Item) (baskets : list Basket)
    : result R :=
  let O := count_if (λ b, (i ∈ b) ∧ (j ∈ b)) baskets in
  if decide (O = 0%Z) then mret 0%R
  else
    let freq_i := count_if (λ b, i ∈ b) baskets in
    let freq_j := count_if (λ b, j ∈ b) baskets in
    let N := total_len baskets in
    E ← int_truediv (freq_i * freq_j) N;
    q ← float_truediv (IZR O) E;
    math_log2 q.

(** ** Properties of a table, as the specification words them *)

(** The observed counts add up to the marginals and to the total, and no
    expected count is negative. *)
Definition table_invariant (t : ContingencyTable.t) : Prop :=
  (ContingencyTable.O_11 t + ContingencyTable.O_12 t
   + ContingencyTable.O_21 t + ContingencyTable.O_22 t
   = ContingencyTable.N t)%Z
  ∧ (ContingencyTable.R_1 t + ContingencyTable.R_2 t
     = ContingencyTable.N t)%Z
  ∧ (ContingencyTable.C_1 t + ContingencyTable.C_2 t
     = ContingencyTable.N t)%Z
  ∧ (ContingencyTable.R_1 t
     = ContingencyTable.O_11 t + ContingencyTable.O_12 t)%Z
  ∧ (ContingencyTable.C_1 t
     = ContingencyTable.O_11 t + ContingencyTable.O_21 t)%Z
  ∧ (0 <= ContingencyTable.E_11 t)%R
  ∧ (0 <= ContingencyTable.E_12 t)%R
  ∧ (0 <= ContingencyTable.E_21 t)%R
  ∧ (0 <= ContingencyTable.E_22 t)%R.

(** The expected counts have the marginals of the observed ones. *)
Definition expectation_marginals (t : ContingencyTable.t) : Prop :=
  (ContingencyTable.E_11 t + ContingencyTable.E_12 t
   = IZR (ContingencyTable.R_1 t))%R
  ∧ (ContingencyTable.E_21 t + ContingencyTable.E_22 t
     = IZR (ContingencyTable.R_2 t))%R
  ∧ (ContingencyTable.E_11 t + ContingencyTable.E_21 t
     = IZR (ContingencyTable.C_1 t))%R
  ∧ (ContingencyTable.E_12 t + ContingencyTable.E_22 t
     = IZR (ContingencyTable.C_2 t))%R.

(** A small corpus used to instantiate the statements below. *)
Definition sample_corpus : list (gset string) :=
  [ {["A"; "B"]}; {["A"]}; {["B"]}; {["C"]} ].

(** One term of a log-ratio sum as the specification words it: a cell
    with observed count [0] contributes [0], any other cell contributes
    [O * lg (O / E)]. *)
Definition cell_term (lg : R → R) (O : Z) (E : R) : R :=
  if decide (O = 0%Z) then 0%R else (IZR O * lg (IZR O / E))%R.

(** A cell whose guard [O > 0] holds has a positive expected count and a
    positive logarithm argument. *)
Definition cell_safe (O : Z) (E : R) : Prop :=
  (O > 0)%Z → (0 < E)%R ∧ (0 < IZR O / E)%R.

(** Every guarded cell of the table is safe. *)
Definition cells_safe (t : ContingencyTable.t) : Prop :=
  cell_safe (ContingencyTable.O_11 t) (ContingencyTable.E_11 t)
  ∧ cell_safe (ContingencyTable.O_12 t) (ContingencyTable.E_12 t)
  ∧ cell_safe (ContingencyTable.O_21 t) (ContingencyTable.E_21 t)
  ∧ cell_safe (ContingencyTable.O_22 t) (ContingencyTable.E_22 t).

(** No observed count of the table is negative. *)
Definition counts_nonneg (t : ContingencyTable.t) : Prop :=
  (0 ≤ ContingencyTable.O_11 t)%Z ∧ (0 ≤ ContingencyTable.O_12 t)%Z
  ∧ (0 ≤ ContingencyTable.O_21 t)%Z ∧ (0 ≤ ContingencyTable.O_22 t)%Z.

(** Every expected count is its row marginal times its column marginal,
    over [N]. *)
Definition expectations_from_marginals (t : ContingencyTable.t) : Prop :=
  ContingencyTable.E_11 t
  = (IZR (ContingencyTable.R_1 t) * IZR (ContingencyTable.C_1 t)
     / IZR (ContingencyTable.N t))%R
  ∧ ContingencyTable.E_12 t
    = (IZR (ContingencyTable.R_1 t) * IZR (ContingencyTable.C_2 t)
       / IZR (ContingencyTable.N t))%R
  ∧ ContingencyTable.E_21 t
    = (IZR (ContingencyTable.R_2 t) * IZR (ContingencyTable.C_1 t)
       / IZR (ContingencyTable.N t))%R
  ∧ ContingencyTable.E_22 t
    = (IZR (ContingencyTable.R_2 t) * IZR (ContingencyTable.C_2 t)
       / IZR (ContingencyTable.N t))%R.

(** The table with the roles of the two items exchanged. *)
Definition transpose (t : ContingencyTable.t) : ContingencyTable.t :=
  ContingencyTable.mk
    (ContingencyTable.j t) (ContingencyTable.i t)
    (ContingencyTable.baskets t)
    (ContingencyTable.O_11 t) (ContingencyTable.O_21 t)
    (ContingencyTable.O_12 t) (ContingencyTable.O_22 t)
    (ContingencyTable.R_1 t) (ContingencyTable.R_2 t)
    (ContingencyTable.C_1 t) (ContingencyTable.C_2 t)
    (ContingencyTable.N t)
    (ContingencyTable.E_11 t) (ContingencyTable.E_12 t)
    (ContingencyTable.E_21 t) (ContingencyTable.E_22 t).

(** ** Notions used by the further properties *)

(** [baskets * k]: the corpus repeated [k] times. *)
Fixpoint times (k : nat) (baskets : list (gset string))
    : list (gset string) :=
  match k with
  | O => []
  | S k' => baskets ++ times k' baskets
  end.

(** The sum of the four guarded terms of a table, from its four observed
    counts alone: the marginals, the total and the expected counts are
    the expressions of the constructor. *)
Definition log_ratio_sum (lg : R → R) (o11 o12 o21 o22 : Z) : R :=
  (cell_term lg o11
     (IZR ((o11 + o12) * (o11 + o21)) / IZR (o11 + o21 + (o12 + o22)))
   + cell_term lg o12
       (IZR ((o11 + o12) * (o12 + o22)) / IZR (o11 + o21 + (o12 + o22)))
   + cell_term lg o21
       (IZR ((o21 + o22) * (o11 + o21)) / IZR (o11 + o21 + (o12 + o22)))
   + cell_term lg o22
       (IZR ((o21 + o22) * (o12 + o22)) / IZR (o11 + o21 + (o12 + o22))))%R.

(** ** The demonstration script *)

(** [ITEMS] *)
Definition ITEMS : list string :=
  [ "Car"; "Tennis Ball"; "Tennis Racket"; "Laundry Detergent";
    "Softener"; "Flour"; "Milk"; "Screwdriver"; "Toothpaste" ].

(** [[(i, j) for i in items for j in items if i < j]]: the keys of the
    dictionaries of the script, in the order in which its comprehensions
    visit them.  Python compares strings by code point, which is the order
    of [String.ltb] on their UTF-8 bytes. *)
Definition item_pairs (items : list string) : list (string * string) :=
  i ← items; j ← items; if String.ltb i j then [(i, j)] else [].

(** [{(i, j): f(i, j) for i in items for j in items if i < j}]: the
    values are computed in the order of the keys, the first exception
    ends the comprehension, and a key met again is overwritten. *)
Definition dict_of_pairs {V : Type} (f : string → string → result V)
    (items : list string) : result (gmap (string * string) V) :=
  foldl (λ acc '(i, j), d ← acc; v ← f i j; mret (<[(i, j) := v]> d))
        (mret ∅) (item_pairs items).

(** ** The kind of an exception *)

(** The errors that tell the caller that an argument is not acceptable,
    which the specification calls the InvalidInput kind.  Of the two
    exceptions that the program can raise, Python's [ValueError] is of
    that kind; [ZeroDivisionError] is an [ArithmeticError], raised by the
    division itself. *)
Definition invalid_input_kind (e : exn) : bool :=
  match e with
  | ValueError => true
  | ZeroDivisionError => false
  end.

(** ** The constructor and the log-likelihood over binary64 *)

(** [float(z)] for an [int] between [0] and [2 ^ 53], which the conversion
    represents exactly. *)
Definition float_of_int (z : Z) : float :=
  PrimFloat.of_uint63 (Uint63.of_Z z).

(** [a / b] on two [int]s between [0] and [2 ^ 53]: the quotient of the two
    converted operands, rounded once. *)
Definition int_truediv64 (a b : Z) : result float :=
  if decide (b = 0%Z) then Raise ZeroDivisionError
  else Ok (float_of_int a / float_of_int b)%float.

(** [a / b] when one operand is a float ([a] has been converted). *)
Definition float_truediv64 (a b : float) : result float :=
  if PrimFloat.eqb b 0 then Raise ZeroDivisionError
  else Ok (a / b)%float.

(** [math.log(x)], where [clog] is the logarithm of the C library, which
    is not part of the program: [ValueError] when [x <= 0]. *)
Definition math_log64 (clog : float → float) (x : float) : result float :=
  if PrimFloat.leb x 0 then Raise ValueError else Ok (clog x).

Module ContingencyTable64.

Record t : Type := mk {
  i : Item;
  j : Item;
  baskets : list Basket;
  O_11 : Z;
  O_12 : Z;
  O_21 : Z;
  O_22 : Z;
  C_1 : Z;
  C_2 : Z;
  R_1 : Z;
  R_2 : Z;
  N : Z;
  E_11 : float;
  E_21 : float;
  E_12 : float;
  E_22 : float
}.

(** [ContingencyTable(i, j, baskets)] *)
Definition __init__ (i j : Item) (baskets : list Basket) : result t :=
  let O_11 := count_if (λ b, (i ∈ b) ∧ (j ∈ b)) baskets in
  let O_12 := count_if (λ b, (i ∈ b) ∧ (j ∉ b)) baskets in
  let O_21 := count_if (λ b, (i ∉ b) ∧ (j ∈ b)) baskets in
  let O_22 := count_if (λ b, (i ∉ b) ∧ (j ∉ b)) baskets in
  let C_1 := (O_11 + O_21)%Z in
  let C_2 := (O_12 + O_22)%Z in
  let R_1 := (O_11 + O_12)%Z in
  let R_2 := (O_21 + O_22)%Z in
  let N := (C_1 + C_2)%Z in
  E_11 ← int_truediv64 (R_1 * C_1) N;
  E_21 ← int_truediv64 (R_2 * C_1) N;
  E_12 ← int_truediv64 (R_1 * C_2) N;
  E_22 ← int_truediv64 (R_2 * C_2) N;
  mret (mk i j baskets O_11 O_12 O_21 O_22 C_1 C_2 R_1 R_2 N
           E_11 E_21 E_12 E_22).

(** [self.log_likelihood()]: the four terms are added from left to
    right, each addition rounded; the [int] [0] of an empty cell enters
    the sum as the float [0]. *)
Definition log_likelihood (clog : float → float) (self : t)
    : result float :=
  x11 ← (if decide (O_11 self > 0)%Z
         then q ← float_truediv64 (float_of_int (O_11 self)) (E_11 self);
              l ← math_log64 clog q;
              mret (float_of_int (O_11 self) * l)%float
         else mret 0%float);
  x12 ← (if decide (O_12 self > 0)%Z
         then q ← float_truediv64 (float_of_int (O_12 self)) (E_12 self);
              l ← math_log64 clog q;
              mret (float_of_int (O_12 self) * l)%float
         else mret 0%float);
  x21 ← (if decide (O_21 self > 0)%Z
         then q ← float_truediv64 (float_of_int (O_21 self)) (E_21 self);
              l ← math_log64 clog q;
              mret (float_of_int (O_21 self) * l)%float
         else mret 0%float);
  x22 ← (if decide (O_22 self > 0)%Z
         then q ← float_truediv64 (float_of_int (O_22 self)) (E_22 self);
              l ← math_log64 clog q;
              mret (float_of_int (O_22 self) * l)%float
         else mret 0%float);
  mret (2 * (x11 + x12 + x21 + x22))%float.

End ContingencyTable64.



(** ** Counting lemmas *)

Section Counting.

Implicit Types (b : gset string) (baskets : list (gset string)).

Lemma py_sum_acc (xs : list Z) (a : Z) :
  fold_left Z.add xs a = (a + py_sum xs)%Z.
Proof.
  unfold py_sum. revert a.
  induction xs as [|x xs IH]; intros a; simpl; [lia|].
  rewrite (IH (a + x)%Z), (IH (0 + x)%Z). lia.
Qed.

Lemma py_sum_cons (x : Z) (xs : list Z) :
  py_sum (x :: xs) = (x + py_sum xs)%Z.
Proof. unfold py_sum at 1. simpl. apply py_sum_acc. Qed.

Lemma count_if_nil (P : gset string → Prop) `{!∀ b, Decision (P b)} :
  count_if P [] = 0%Z.
Proof. reflexivity. Qed.

Lemma count_if_cons (P : gset string → Prop) `{!∀ b, Decision (P b)}
    b baskets :
  count_if P (b :: baskets)
  = ((if decide (P b) then 1 else 0) + count_if P baskets)%Z.
Proof.
  unfold count_if. rewrite filter_cons.
  destruct (decide (P b)); [|lia].
  rewrite fmap_cons. apply py_sum_cons.
Qed.

Lemma count_if_length (P : gset string → Prop) `{!∀ b, Decision (P b)}
    baskets :
  count_if P baskets = Z.of_nat (length (filter P baskets)).
Proof.
  induction baskets as [|b baskets IH]; [reflexivity|].
  rewrite count_if_cons, filter_cons, IH.
  destruct (decide (P b)); simpl length; lia.
Qed.

Lemma count_if_nonneg (P : gset string → Prop) `{!∀ b, Decision (P b)}
    baskets :
  (0 ≤ count_if P baskets)%Z.
Proof. rewrite count_if_length. lia. Qed.

Lemma count_if_mono (P Q : gset string → Prop)
    `{!∀ b, Decision (P b)} `{!∀ b, Decision (Q b)} baskets :
  (∀ b, P b → Q b) → (count_if P baskets ≤ count_if Q baskets)%Z.
Proof.
  intros HPQ. induction baskets as [|b baskets IH]; [reflexivity|].
  rewrite !count_if_cons.
  destruct (decide (P b)) as [HP|HP], (decide (Q b)) as [HQ|HQ];
    try lia.
  destruct HQ. auto.
Qed.

Lemma count_if_ext (P Q : gset string → Prop)
    `{!∀ b, Decision (P b)} `{!∀ b, Decision (Q b)} baskets :
  (∀ b, P b ↔ Q b) → count_if P baskets = count_if Q baskets.
Proof.
  intros HPQ. apply Z.le_antisymm; apply count_if_mono; intros b;
    apply HPQ.
Qed.

(** A predicate splits the baskets counted by another one in two. *)
Lemma count_if_split (P Q : gset string → Prop)
    `{!∀ b, Decision (P b)} `{!∀ b, Decision (Q b)} baskets :
  count_if P baskets
  = (count_if (λ b, P b ∧ Q b) baskets
     + count_if (λ b, P b ∧ ¬ Q b) baskets)%Z.
Proof.
  induction baskets as [|b baskets IH]; [reflexivity|].
  rewrite !count_if_cons, IH.
  destruct (decide (P b)), (decide (P b ∧ Q b)) as [|n1],
    (decide (P b ∧ ¬ Q b)) as [|n2]; try lia; try tauto.
Qed.

Lemma count_if_all baskets :
  count_if (λ _, True) baskets = Z.of_nat (length baskets).
Proof.
  induction baskets as [|b baskets IH]; [reflexivity|].
  rewrite count_if_cons, IH. simpl length.
  destruct (decide True); [lia|tauto].
Qed.


(** A positive count has a witness among the baskets. *)
Lemma count_if_pos (P : gset string → Prop) `{!∀ b, Decision (P b)}
    baskets :
  (0 < count_if P baskets)%Z → ∃ b, b ∈ baskets ∧ P b.
Proof.
  induction baskets as [|b baskets IH]; [rewrite count_if_nil; lia|].
  rewrite count_if_cons.
  destruct (decide (P b)) as [HP|HP].
  - intros _. exists b. split; [left|done].
  - intros Hpos. destruct IH as (b' & Hin & HP'); [lia|].
    exists b'. split; [by right|done].
Qed.

Lemma total_len_nil : total_len [] = 0%Z.
Proof. reflexivity. Qed.

Lemma total_len_cons b baskets :
  total_len (b :: baskets) = (Z.of_nat (size b) + total_len baskets)%Z.
Proof. unfold total_len. rewrite fmap_cons. apply py_sum_cons. Qed.

Lemma total_len_nonneg baskets : (0 ≤ total_len baskets)%Z.
Proof.
  induction baskets as [|b baskets IH]; [reflexivity|].
  rewrite total_len_cons. lia.
Qed.

(** The total number of occurrences is at least the size of any basket. *)
Lemma total_len_elem b baskets :
  b ∈ baskets → (Z.of_nat (size b) ≤ total_len baskets)%Z.
Proof.
  induction 1 as [b baskets|b b' baskets _ IH];
    rewrite total_len_cons.
  - pose proof (total_len_nonneg baskets). lia.
  - lia.
Qed.

End Counting.

(** ** The table built by the constructor *)

Section Cells.

Variables (i j : string) (baskets : list (gset string)).

Let o11 := count_if (λ b, (i ∈ b) ∧ (j ∈ b)) baskets.
Let o12 := count_if (λ b, (i ∈ b) ∧ (j ∉ b)) baskets.
Let o21 := count_if (λ b, (i ∉ b) ∧ (j ∈ b)) baskets.
Let o22 := count_if (λ b, (i ∉ b) ∧ (j ∉ b)) baskets.

(** Every basket falls in exactly one of the four cells. *)
Lemma cells_total :
  (o11 + o12 + o21 + o22)%Z = Z.of_nat (length baskets).
Proof.
  subst o11 o12 o21 o22.
  induction baskets as [|b bs IH]; [reflexivity|].
  rewrite !count_if_cons. simpl length.
  destruct (decide (i ∈ b)), (decide (j ∈ b));
    repeat case_decide; try tauto; lia.
Qed.

Lemma cells_nonneg : (0 ≤ o11 ∧ 0 ≤ o12 ∧ 0 ≤ o21 ∧ 0 ≤ o22)%Z.
Proof. repeat split; apply count_if_nonneg. Qed.

(** The first row counts the baskets that hold [i], the first column
    those that hold [j]. *)
Lemma row_1_freq : (o11 + o12)%Z = count_if (λ b, i ∈ b) baskets.
Proof.
  subst o11 o12. symmetry.
  apply (count_if_split (λ b, i ∈ b) (λ b, j ∈ b)).
Qed.

Lemma col_1_freq : (o11 + o21)%Z = count_if (λ b, j ∈ b) baskets.
Proof.
  subst o11 o21.
  rewrite (count_if_split (λ b, j ∈ b) (λ b, i ∈ b)).
  f_equal; apply count_if_ext; intros b; tauto.
Qed.

(** On a corpus with at least one basket no division of the constructor
    fails, and the table is the one below. *)
Lemma init_nonempty :
  baskets ≠ [] →
  ContingencyTable.__init__ i j baskets
  = Ok (ContingencyTable.mk i j baskets o11 o12 o21 o22
          (o11 + o21) (o12 + o22) (o11 + o12) (o21 + o22)
          (o11 + o21 + (o12 + o22))
          (IZR ((o11 + o12) * (o11 + o21))
           / IZR (o11 + o21 + (o12 + o22)))
          (IZR ((o21 + o22) * (o11 + o21))
           / IZR (o11 + o21 + (o12 + o22)))
          (IZR ((o11 + o12) * (o12 + o22))
           / IZR (o11 + o21 + (o12 + o22)))
          (IZR ((o21 + o22) * (o12 + o22))
           / IZR (o11 + o21 + (o12 + o22)))).
Proof.
  intros Hne. pose proof cells_total as Htot.
  assert (Hlen : (0 < Z.of_nat (length baskets))%Z)
    by (destruct baskets; [done | simpl length; lia]).
  unfold ContingencyTable.__init__, int_truediv.
  fold o11 o12 o21 o22.
  destruct (decide ((o11 + o21 + (o12 + o22))%Z = 0%Z)) as [Hz|Hnz];
    [lia|reflexivity].
Qed.

(** On the empty corpus the first division already fails. *)
Lemma init_empty :
  baskets = [] →
  ContingencyTable.__init__ i j baskets = Raise ZeroDivisionError.
Proof. intros ->. reflexivity. Qed.

End Cells.

(** ** Real-number helpers *)

Lemma IZR_quot_nonneg (a n : Z) :
  (0 ≤ a)%Z → (0 < n)%Z → (0 <= IZR a / IZR n)%R.
Proof.
  intros Ha Hn. apply IZR_le in Ha. apply IZR_lt in Hn.
  apply Rmult_le_pos; [exact Ha|].
  left. apply Rinv_0_lt_compat. exact Hn.
Qed.

Lemma IZR_quot_pos (a n : Z) :
  (0 < a)%Z → (0 < n)%Z → (0 < IZR a / IZR n)%R.
Proof.
  intros Ha Hn. apply IZR_lt in Ha. apply IZR_lt in Hn.
  apply Rdiv_lt_0_compat; assumption.
Qed.

(** [(a * c + a * d) / (c + d) = a] when the divisor is not zero. *)
Lemma IZR_quot_sum (a c d : Z) :
  (c + d ≠ 0)%Z →
  (IZR (a * c) / IZR (c + d) + IZR (a * d) / IZR (c + d) = IZR a)%R.
Proof.
  intros Hn. assert (IZR (c + d) ≠ 0%R) as Hr by (by apply not_0_IZR).
  rewrite !mult_IZR. rewrite plus_IZR in *. field. exact Hr.
Qed.

(** ** The invariants of the table *)

(** The table of a non-empty corpus satisfies the invariants. *)
Lemma init_invariant (i j : string) (baskets : list (gset string)) :
  baskets ≠ [] →
  ∃ t, ContingencyTable.__init__ i j baskets = Ok t
       ∧ ContingencyTable.N t = Z.of_nat (length baskets)
       ∧ table_invariant t.
Proof.
  intros Hne. eexists. split; [by apply init_nonempty|].
  pose proof (cells_total i j baskets) as Htot.
  pose proof (cells_nonneg i j baskets) as (H11 & H12 & H21 & H22).
  assert (0 < Z.of_nat (length baskets))%Z
    by (destruct baskets; [done | simpl length; lia]).
  unfold table_invariant. simpl.
  repeat split; try lia; apply IZR_quot_nonneg; nia.
Qed.

(** C3. For every non-empty corpus and every pair of items, the
    constructor returns a table in which the four observed counts add up
    to [N], [N] is the number of baskets, [R_1 + R_2 = N],
    [C_1 + C_2 = N], [R_1 = O_11 + O_12], [C_1 = O_11 + O_21], and every
    expected count is at least [0]. *)
Theorem table_invariants_hold (i j : string)
    (baskets : list (gset string)) :
  baskets ≠ [] →
  ∃ t, ContingencyTable.__init__ i j baskets = Ok t
       ∧ (ContingencyTable.O_11 t + ContingencyTable.O_12 t
          + ContingencyTable.O_21 t + ContingencyTable.O_22 t
          = ContingencyTable.N t)%Z
       ∧ ContingencyTable.N t = Z.of_nat (length baskets)
       ∧ (ContingencyTable.R_1 t + ContingencyTable.R_2 t
          = ContingencyTable.N t)%Z
       ∧ (ContingencyTable.C_1 t + ContingencyTable.C_2 t
          = ContingencyTable.N t)%Z
       ∧ (ContingencyTable.R_1 t
          = ContingencyTable.O_11 t + ContingencyTable.O_12 t)%Z
       ∧ (ContingencyTable.C_1 t
          = ContingencyTable.O_11 t + ContingencyTable.O_21 t)%Z
       ∧ (0 <= ContingencyTable.E_11 t)%R
       ∧ (0 <= ContingencyTable.E_12 t)%R
       ∧ (0 <= ContingencyTable.E_21 t)%R
       ∧ (0 <= ContingencyTable.E_22 t)%R.
Proof.
  intros Hne.
  destruct (init_invariant i j baskets Hne) as (t & Ht & HN & Hinv).
  exists t. unfold table_invariant in Hinv. tauto.
Qed.

Lemma table_invariants_hold_witness :
  sample_corpus ≠ []
  ∧ ∃ t, ContingencyTable.__init__ "A" "B" sample_corpus = Ok t
         ∧ ContingencyTable.N t = 4%Z
         ∧ (ContingencyTable.R_1 t + ContingencyTable.R_2 t
            = ContingencyTable.N t)%Z.
Proof.
  split; [discriminate|].
  destruct (table_invariants_hold "A" "B" sample_corpus)
    as (t & Ht & _ & HN & HR & _); [discriminate|].
  exists t. split; [exact Ht|]. split; [exact HN|exact HR].
Defined.

(** C6. For every non-empty corpus and every pair of items, the expected
    counts of the table sum to the observed marginals, as identities of
    exact arithmetic: [E_11 + E_12 = R_1], [E_21 + E_22 = R_2],
    [E_11 + E_21 = C_1], [E_12 + E_22 = C_2]. *)
Theorem expectations_match_marginals (i j : string)
    (baskets : list (gset string)) :
  baskets ≠ [] →
  ∃ t, ContingencyTable.__init__ i j baskets = Ok t
       ∧ expectation_marginals t.
Proof.
  intros Hne. eexists. split; [by apply init_nonempty|].
  pose proof (cells_total i j baskets) as Htot.
  assert (0 < Z.of_nat (length baskets))%Z
    by (destruct baskets; [done | simpl length; lia]).
  assert (Hr : (IZR (Z.of_nat (length baskets)) ≠ 0)%R)
    by (apply not_0_IZR; lia).
  rewrite <- Htot in Hr. rewrite !plus_IZR in Hr.
  unfold expectation_marginals. simpl.
  repeat split; rewrite !mult_IZR, !plus_IZR; field; lra.
Qed.

Lemma expectations_match_marginals_witness :
  sample_corpus ≠ []
  ∧ ∃ t, ContingencyTable.__init__ "A" "B" sample_corpus = Ok t
         ∧ expectation_marginals t.
Proof.
  split; [discriminate|].
  apply (expectations_match_marginals "A" "B" sample_corpus). discriminate.
Defined.

(** ** The guarded terms of the log-ratio sums *)

Section GuardedTerm.

Variables (lg : R → R) (mlog : R → result R).
Hypothesis mlog_pos : ∀ x, (0 < x)%R → mlog x = Ok (lg x).

Lemma guarded_term (O : Z) (E : R) :
  (0 ≤ O)%Z → cell_safe O E →
  (if decide (O > 0)%Z
   then q ← float_truediv (IZR O) E; l ← mlog q; mret (IZR O * l)%R
   else mret 0%R)
  = Ok (cell_term lg O E).
Proof.
  intros HO Hsafe. unfold cell_term.
  destruct (decide (O > 0)%Z) as [Hpos|Hnpos].
  - destruct (Hsafe Hpos) as [HE Hq].
    destruct (decide (O = 0%Z)) as [->|_]; [lia|].
    unfold float_truediv.
    destruct (Req_dec_T E 0) as [->|_]; [lra|].
    simpl. rewrite (mlog_pos _ Hq). reflexivity.
  - destruct (decide (O = 0%Z)) as [_|Hnz]; [reflexivity|lia].
Qed.

End GuardedTerm.

Lemma math_log2_pos (x : R) : (0 < x)%R → math_log2 x = Ok (Rlog2 x).
Proof. intros Hx. unfold math_log2. by destruct (Rlt_dec 0 x). Qed.

Lemma math_log_pos (x : R) : (0 < x)%R → math_log x = Ok (ln x).
Proof. intros Hx. unfold math_log. by destruct (Rlt_dec 0 x). Qed.

(** On a table whose counts are not negative and whose guarded cells are
    safe, both metrics return the sum of the four terms. *)
Lemma mutual_information_eval (t : ContingencyTable.t) :
  counts_nonneg t → cells_safe t →
  ContingencyTable.mutual_information t
  = Ok (cell_term Rlog2 (ContingencyTable.O_11 t) (ContingencyTable.E_11 t)
        + cell_term Rlog2 (ContingencyTable.O_12 t) (ContingencyTable.E_12 t)
        + cell_term Rlog2 (ContingencyTable.O_21 t) (ContingencyTable.E_21 t)
        + cell_term Rlog2 (ContingencyTable.O_22 t) (ContingencyTable.E_22 t))%R.
Proof.
  intros (H11 & H12 & H21 & H22) (S11 & S12 & S21 & S22).
  unfold ContingencyTable.mutual_information.
  rewrite !(guarded_term Rlog2 math_log2 math_log2_pos) by assumption.
  reflexivity.
Qed.

Lemma log_likelihood_eval (t : ContingencyTable.t) :
  counts_nonneg t → cells_safe t →
  ContingencyTable.log_likelihood t
  = Ok (2 * (cell_term ln (ContingencyTable.O_11 t) (ContingencyTable.E_11 t)
        + cell_term ln (ContingencyTable.O_12 t) (ContingencyTable.E_12 t)
        + cell_term ln (ContingencyTable.O_21 t) (ContingencyTable.E_21 t)
        + cell_term ln (ContingencyTable.O_22 t) (ContingencyTable.E_22 t)))%R.
Proof.
  intros (H11 & H12 & H21 & H22) (S11 & S12 & S21 & S22).
  unfold ContingencyTable.log_likelihood.
  rewrite !(guarded_term ln math_log math_log_pos) by assumption.
  reflexivity.
Qed.

(** A positive count over a positive expected count. *)
Lemma cell_safe_quot (O a n : Z) :
  ((O > 0)%Z → (0 < a)%Z) → (0 < n)%Z →
  cell_safe O (IZR a / IZR n).
Proof.
  intros Ha Hn HO. specialize (Ha HO).
  assert (0 < IZR a / IZR n)%R as HE by (by apply IZR_quot_pos).
  split; [exact HE|].
  apply Rdiv_lt_0_compat; [apply IZR_lt; lia|exact HE].
Qed.

(** The table of a non-empty corpus has safe cells. *)
Lemma init_safe (i j : string) (baskets : list (gset string)) :
  baskets ≠ [] →
  ∃ t, ContingencyTable.__init__ i j baskets = Ok t
       ∧ counts_nonneg t ∧ cells_safe t.
Proof.
  intros Hne. eexists. split; [by apply init_nonempty|].
  pose proof (cells_total i j baskets) as Htot.
  pose proof (cells_nonneg i j baskets) as (H11 & H12 & H21 & H22).
  assert (0 < Z.of_nat (length baskets))%Z
    by (destruct baskets; [done | simpl length; lia]).
  split; [by repeat split|].
  unfold cells_safe. simpl.
  refine (conj _ (conj _ (conj _ _)));
    apply cell_safe_quot; try lia; intros HO; nia.
Qed.

(** C1. For every non-empty corpus and every pair of items, the table is
    built, every expected count is (row marginal * column marginal) / N,
    [mutual_information()] returns the sum over the four cells of
    [O * log2 (O / E)] and [log_likelihood()] returns twice the sum over
    the four cells of [O * ln (O / E)], a cell with observed count [0]
    contributing exactly [0] in both. *)
Theorem metrics_are_log_ratio_sums (i j : string)
    (baskets : list (gset string)) :
  baskets ≠ [] →
  ∃ t, ContingencyTable.__init__ i j baskets = Ok t
    ∧ expectations_from_marginals t
    ∧ ContingencyTable.mutual_information t
      = Ok (cell_term Rlog2 (ContingencyTable.O_11 t)
                            (ContingencyTable.E_11 t)
            + cell_term Rlog2 (ContingencyTable.O_12 t)
                              (ContingencyTable.E_12 t)
            + cell_term Rlog2 (ContingencyTable.O_21 t)
                              (ContingencyTable.E_21 t)
            + cell_term Rlog2 (ContingencyTable.O_22 t)
                              (ContingencyTable.E_22 t))%R
    ∧ ContingencyTable.log_likelihood t
      = Ok (2 * (cell_term ln (ContingencyTable.O_11 t)
                              (ContingencyTable.E_11 t)
                 + cell_term ln (ContingencyTable.O_12 t)
                                (ContingencyTable.E_12 t)
                 + cell_term ln (ContingencyTable.O_21 t)
                                (ContingencyTable.E_21 t)
                 + cell_term ln (ContingencyTable.O_22 t)
                                (ContingencyTable.E_22 t)))%R.
Proof.
  intros Hne.
  destruct (init_safe i j baskets Hne) as (t & Ht & Hnn & Hsafe).
  exists t. split; [exact Ht|]. split.
  - rewrite (init_nonempty i j baskets Hne) in Ht.
    injection Ht as <-. unfold expectations_from_marginals. simpl.
    rewrite !mult_IZR. done.
  - split; [by apply mutual_information_eval
           |by apply log_likelihood_eval].
Qed.

Lemma metrics_are_log_ratio_sums_witness :
  sample_corpus ≠ []
  ∧ ∃ t, ContingencyTable.__init__ "A" "B" sample_corpus = Ok t
    ∧ expectations_from_marginals t
    ∧ ContingencyTable.mutual_information t
      = Ok (cell_term Rlog2 (ContingencyTable.O_11 t)
                            (ContingencyTable.E_11 t)
            + cell_term Rlog2 (ContingencyTable.O_12 t)
                              (ContingencyTable.E_12 t)
            + cell_term Rlog2 (ContingencyTable.O_21 t)
                              (ContingencyTable.E_21 t)
            + cell_term Rlog2 (ContingencyTable.O_22 t)
                              (ContingencyTable.E_22 t))%R
    ∧ ContingencyTable.log_likelihood t
      = Ok (2 * (cell_term ln (ContingencyTable.O_11 t)
                              (ContingencyTable.E_11 t)
                 + cell_term ln (ContingencyTable.O_12 t)
                                (ContingencyTable.E_12 t)
                 + cell_term ln (ContingencyTable.O_21 t)
                                (ContingencyTable.E_21 t)
                 + cell_term ln (ContingencyTable.O_22 t)
                                (ContingencyTable.E_22 t)))%R.
Proof.
  split; [discriminate|].
  apply (metrics_are_log_ratio_sums "A" "B" sample_corpus). discriminate.
Defined.

(** ** Local mutual information *)

Section Local.

Variables (i j : string) (baskets : list (gset string)).

Let O := count_if (λ b, (i ∈ b) ∧ (j ∈ b)) baskets.
Let freq_i := count_if (λ b, i ∈ b) baskets.
Let freq_j := count_if (λ b, j ∈ b) baskets.
Let N := total_len baskets.

Lemma cooccurrence_le_freq : (O ≤ freq_i ∧ O ≤ freq_j)%Z.
Proof.
  split; apply count_if_mono; intros b; tauto.
Qed.

(** A basket that holds both items has at least one element, and at
    least two when the items differ. *)
Lemma cooccurrence_total :
  (0 < O)%Z → (1 ≤ N)%Z ∧ (i ≠ j → (2 ≤ N)%Z).
Proof.
  intros HO. apply count_if_pos in HO as (b & Hin & Hi & Hj).
  pose proof (total_len_elem b baskets Hin) as Hle. fold N in Hle.
  split.
  - assert (size b ≠ 0); [|lia].
    intros Hz. apply size_empty_inv in Hz. set_solver.
  - intros Hij.
    assert (size ({[i]} ∪ {[j]} : gset string) ≤ size b) as Hsz.
    { apply subseteq_size. intros x Hx.
      apply elem_of_union in Hx as [Hx|Hx];
        apply elem_of_singleton in Hx; by subst x. }
    rewrite size_union, !size_singleton in Hsz; [lia|].
    by apply disjoint_singleton_l, not_elem_of_singleton.
Qed.

(** With a co-occurrence, neither division fails and the logarithm is
    taken of a positive number. *)
Lemma local_mutual_information_pos :
  (0 < O)%Z →
  (0 < IZR (freq_i * freq_j) / IZR N)%R
  ∧ local_mutual_information i j baskets
    = Ok (Rlog2 (IZR O / (IZR (freq_i * freq_j) / IZR N))).
Proof.
  intros HO. pose proof cooccurrence_le_freq as [Hi Hj].
  destruct (cooccurrence_total HO) as [HN _].
  assert (0 < IZR (freq_i * freq_j) / IZR N)%R as HE
    by (apply IZR_quot_pos; nia).
  split; [exact HE|].
  unfold local_mutual_information. fold O freq_i freq_j N.
  destruct (decide (O = 0%Z)) as [Hz|_]; [lia|].
  unfold int_truediv.
  destruct (decide (N = 0%Z)) as [Hz|_]; [lia|]. simpl.
  unfold float_truediv.
  destruct (Req_dec_T _ 0) as [Hz|_]; [lra|]. simpl.
  apply math_log2_pos. apply Rdiv_lt_0_compat; [apply IZR_lt; lia|done].
Qed.

Lemma local_mutual_information_zero :
  O = 0%Z → local_mutual_information i j baskets = Ok 0%R.
Proof.
  intros HO. unfold local_mutual_information. fold O.
  by destruct (decide (O = 0%Z)).
Qed.

Lemma cooccurrence_nonneg : (0 ≤ O)%Z.
Proof. apply count_if_nonneg. Qed.

End Local.

(** The total of [local_mutual_information] is the sum of the sizes of
    the baskets. *)
Lemma total_len_sum_list (baskets : list (gset string)) :
  total_len baskets = Z.of_nat (sum_list (size <$> baskets)).
Proof.
  induction baskets as [|b baskets IH]; [reflexivity|].
  rewrite total_len_cons, IH, fmap_cons. simpl sum_list. lia.
Qed.

(** C2. For every corpus and every pair of items: when no basket holds
    both items the function returns [0], without error; otherwise it
    returns [log2 (O / E)] with [E = freq_i * freq_j / N], where [O] is
    the number of baskets that hold both items, [freq_i] and [freq_j]
    are the numbers of baskets that hold [i], respectively [j], and [N]
    is the sum of the sizes of all baskets, not their number. *)
Theorem local_mutual_information_spec (i j : string)
    (baskets : list (gset string)) :
  let O := Z.of_nat (length (filter (λ b, (i ∈ b) ∧ (j ∈ b)) baskets)) in
  let freq_i := Z.of_nat (length (filter (λ b, i ∈ b) baskets)) in
  let freq_j := Z.of_nat (length (filter (λ b, j ∈ b) baskets)) in
  let N := Z.of_nat (sum_list (size <$> baskets)) in
  (O = 0%Z → local_mutual_information i j baskets = Ok 0%R)
  ∧ (O ≠ 0%Z →
     local_mutual_information i j baskets
     = Ok (Rlog2 (IZR O / (IZR freq_i * IZR freq_j / IZR N)))).
Proof.
  intros O freq_i freq_j N. subst O freq_i freq_j N.
  rewrite <- !count_if_length, <- total_len_sum_list. split.
  - apply local_mutual_information_zero.
  - intros HO. pose proof (cooccurrence_nonneg i j baskets).
    rewrite <- mult_IZR.
    apply local_mutual_information_pos. lia.
Qed.

Lemma local_mutual_information_spec_witness :
  length sample_corpus = 4
  ∧ sum_list (size <$> sample_corpus) = 5
  ∧ local_mutual_information "A" "C" sample_corpus = Ok 0%R
  ∧ local_mutual_information "A" "B" sample_corpus
    = Ok (Rlog2 (1 / (2 * 2 / 5))).
Proof.
  split; [reflexivity|]. split; [vm_compute; reflexivity|]. split.
  - apply (local_mutual_information_spec "A" "C" sample_corpus).
    vm_compute. reflexivity.
  - pose proof (local_mutual_information_spec "A" "B" sample_corpus)
      as [_ Hpos].
    assert (Z.of_nat (length (filter (λ b, ("A" ∈ b) ∧ ("B" ∈ b))
                                sample_corpus)) = 1%Z) as HO
      by (vm_compute; reflexivity).
    assert (Z.of_nat (length (filter (λ b, "A" ∈ b) sample_corpus))
            = 2%Z) as HA by (vm_compute; reflexivity).
    assert (Z.of_nat (length (filter (λ b, "B" ∈ b) sample_corpus))
            = 2%Z) as HB by (vm_compute; reflexivity).
    assert (Z.of_nat (sum_list (size <$> sample_corpus)) = 5%Z) as HN
      by (vm_compute; reflexivity).
    cbv zeta in Hpos. rewrite HO, HA, HB, HN in Hpos.
    apply Hpos. discriminate.
Defined.

(** C4, as the code has it. On the empty corpus the constructor of the
    table fails with [ZeroDivisionError], the arithmetic error of its
    first division and not an error of the InvalidInput kind, so that no
    table (and no NaN or infinity) is produced; [local_mutual_information]
    fully succeeds and returns [0].  Every computation on the empty corpus
    thus either fully succeeds or fails with [ZeroDivisionError]. *)
Theorem empty_corpus_behaviour (i j : string) :
  ContingencyTable.__init__ i j [] = Raise ZeroDivisionError
  ∧ invalid_input_kind ZeroDivisionError = false
  ∧ local_mutual_information i j [] = Ok 0%R.
Proof. repeat split; reflexivity. Qed.

(** C4 as stated fails: on the empty corpus the constructor of the table
    does not fail with an error of the InvalidInput kind. *)
Lemma empty_corpus_error_not_invalid_input :
  ¬ ∃ e, ContingencyTable.__init__ "A" "B" [] = Raise e
         ∧ invalid_input_kind e = true.
Proof.
  intros (e & He & Hkind). vm_compute in He.
  injection He as <-. discriminate Hkind.
Qed.

(** ** No logarithm is taken outside its domain *)

(** C9, as the code has it. For every non-empty corpus the table is built
    and, in each cell whose guard [O > 0] holds, the expected count and the
    logarithm argument [O / E] are positive, so that
    [mutual_information()] and [log_likelihood()] both return a value.  In
    [local_mutual_information], [O > 0] implies [freq_i >= 1],
    [freq_j >= 1] and [N >= 1] ([N >= 2] when the two items differ), so
    that [E > 0] and the function returns a value. *)
Theorem logarithms_well_defined (i j : string)
    (baskets : list (gset string)) :
  (baskets ≠ [] →
   ∃ t, ContingencyTable.__init__ i j baskets = Ok t
     ∧ cells_safe t
     ∧ (∃ v, ContingencyTable.mutual_information t = Ok v)
     ∧ (∃ v, ContingencyTable.log_likelihood t = Ok v))
  ∧ ((0 < count_if (λ b, (i ∈ b) ∧ (j ∈ b)) baskets)%Z →
     (1 ≤ count_if (λ b, i ∈ b) baskets)%Z
     ∧ (1 ≤ count_if (λ b, j ∈ b) baskets)%Z
     ∧ (1 ≤ total_len baskets)%Z
     ∧ (i ≠ j → (2 ≤ total_len baskets)%Z)
     ∧ (0 < IZR (count_if (λ b, i ∈ b) baskets
                 * count_if (λ b, j ∈ b) baskets)
            / IZR (total_len baskets))%R
     ∧ ∃ v, local_mutual_information i j baskets = Ok v).
Proof.
  split.
  - intros Hne.
    destruct (init_safe i j baskets Hne) as (t & Ht & Hnn & Hsafe).
    exists t. repeat (split; [done|]). split; eexists.
    + by apply mutual_information_eval.
    + by apply log_likelihood_eval.
  - intros HO.
    pose proof (cooccurrence_le_freq i j baskets) as [Hi Hj].
    destruct (cooccurrence_total i j baskets HO) as [HN HN2].
    destruct (local_mutual_information_pos i j baskets HO) as [HE Hv].
    repeat (split; [first [lia | done]|]). eexists. exact Hv.
Qed.

Lemma logarithms_well_defined_witness :
  (∃ t, ContingencyTable.__init__ "A" "B" sample_corpus = Ok t
     ∧ cells_safe t
     ∧ (∃ v, ContingencyTable.mutual_information t = Ok v)
     ∧ (∃ v, ContingencyTable.log_likelihood t = Ok v))
  ∧ (2 ≤ total_len sample_corpus)%Z
  ∧ ∃ v, local_mutual_information "A" "B" sample_corpus = Ok v.
Proof.
  destruct (logarithms_well_defined "A" "B" sample_corpus) as [Ht Hl].
  split; [apply Ht; discriminate|].
  destruct Hl as (_ & _ & _ & HN & _ & Hv);
    [vm_compute; reflexivity|].
  split; [apply HN; discriminate|exact Hv].
Defined.

(** C9 as stated fails when the two items are the same: one basket that
    holds a single item gives [O = 1] and [N = 1]. *)
Lemma cooccurrence_total_below_two :
  ¬ ((0 < count_if (λ b, ("A" ∈ b) ∧ ("A" ∈ b)) [ {["A"]} ])%Z →
     (2 ≤ total_len [ {["A"]} ])%Z).
Proof. intros H. vm_compute in H. apply H; reflexivity. Qed.

(** ** Symmetry *)

Lemma count_if_both_comm (i j : string) (baskets : list (gset string)) :
  count_if (λ b, (j ∈ b) ∧ (i ∈ b)) baskets
  = count_if (λ b, (i ∈ b) ∧ (j ∈ b)) baskets.
Proof. apply count_if_ext. intros b. tauto. Qed.

Lemma count_if_neither_comm (i j : string) (baskets : list (gset string)) :
  count_if (λ b, (j ∉ b) ∧ (i ∉ b)) baskets
  = count_if (λ b, (i ∉ b) ∧ (j ∉ b)) baskets.
Proof. apply count_if_ext. intros b. tauto. Qed.

Lemma count_if_only_comm (i j : string) (baskets : list (gset string)) :
  count_if (λ b, (j ∉ b) ∧ (i ∈ b)) baskets
  = count_if (λ b, (i ∈ b) ∧ (j ∉ b)) baskets.
Proof. apply count_if_ext. intros b. tauto. Qed.

(** Building the table of [(j, i)] gives the transposed table of
    [(i, j)]. *)
Lemma init_swap (i j : string) (baskets : list (gset string))
    (t : ContingencyTable.t) :
  ContingencyTable.__init__ i j baskets = Ok t →
  ContingencyTable.__init__ j i baskets = Ok (transpose t).
Proof.
  intros Ht.
  assert (baskets ≠ []) as Hne
    by (intros ->; rewrite init_empty in Ht; done).
  rewrite (init_nonempty i j baskets Hne) in Ht. injection Ht as <-.
  rewrite (init_nonempty j i baskets Hne). unfold transpose. simpl.
  rewrite (count_if_both_comm i j), (count_if_neither_comm i j),
    (count_if_only_comm i j), <- (count_if_only_comm j i).
  set (o11 := count_if (λ b, (i ∈ b) ∧ (j ∈ b)) baskets).
  set (o12 := count_if (λ b, (i ∈ b) ∧ (j ∉ b)) baskets).
  set (o21 := count_if (λ b, (i ∉ b) ∧ (j ∈ b)) baskets).
  set (o22 := count_if (λ b, (i ∉ b) ∧ (j ∉ b)) baskets).
  replace (o11 + o12 + (o21 + o22))%Z with (o11 + o21 + (o12 + o22))%Z
    by lia.
  rewrite (Z.mul_comm (o11 + o21) (o11 + o12)),
    (Z.mul_comm (o12 + o22) (o11 + o12)),
    (Z.mul_comm (o11 + o21) (o21 + o22)),
    (Z.mul_comm (o12 + o22) (o21 + o22)).
  reflexivity.
Qed.



Lemma local_mutual_information_comm (i j : string)
    (baskets : list (gset string)) :
  local_mutual_information i j baskets
  = local_mutual_information j i baskets.
Proof.
  unfold local_mutual_information.
  rewrite (count_if_both_comm i j).
  rewrite (Z.mul_comm (count_if (λ b, j ∈ b) baskets)).
  reflexivity.
Qed.





(** ** Independence *)

Lemma Rlog2_1 : Rlog2 1 = 0%R.
Proof. unfold Rlog2. rewrite ln_1. lra. Qed.

(** A cell whose observed count is its expected count contributes [0]. *)
Lemma cell_term_independent (lg : R → R) (O a n : Z) :
  lg 1%R = 0%R → n ≠ 0%Z → (O * n)%Z = a →
  cell_term lg O (IZR a / IZR n) = 0%R.
Proof.
  intros Hlg Hn <-. unfold cell_term.
  destruct (decide (O = 0%Z)) as [|HO]; [reflexivity|].
  assert (IZR O ≠ 0%R) by (by apply not_0_IZR).
  assert (IZR n ≠ 0%R) by (by apply not_0_IZR).
  replace (IZR O / (IZR (O * n) / IZR n))%R with 1%R
    by (rewrite mult_IZR; field; done).
  rewrite Hlg. ring.
Qed.

(** C7. For every non-empty corpus and distinct items [i], [j] whose
    observed counts factorize under independence, [O_11 * N = R_1 * C_1],
    [mutual_information()] and [log_likelihood()] both return [0]. *)
Theorem independence_gives_zero (i j : string)
    (baskets : list (gset string)) :
  baskets ≠ [] → i ≠ j →
  ∃ t, ContingencyTable.__init__ i j baskets = Ok t
    ∧ ((ContingencyTable.O_11 t * ContingencyTable.N t
        = ContingencyTable.R_1 t * ContingencyTable.C_1 t)%Z →
       ContingencyTable.mutual_information t = Ok 0%R
       ∧ ContingencyTable.log_likelihood t = Ok 0%R).
Proof.
  intros Hne _.
  destruct (init_safe i j baskets Hne) as (t & Ht & Hnn & Hsafe).
  exists t. split; [exact Ht|].
  rewrite mutual_information_eval, log_likelihood_eval by done.
  rewrite (init_nonempty i j baskets Hne) in Ht. injection Ht as <-.
  simpl. intros Hind.
  pose proof (cells_total i j baskets) as Htot.
  assert (0 < Z.of_nat (length baskets))%Z
    by (destruct baskets; [done | simpl length; lia]).
  rewrite !(cell_term_independent Rlog2), !(cell_term_independent ln)
    by first [apply Rlog2_1 | apply ln_1 | lia | nia].
  split; f_equal; ring.
Qed.

Lemma independence_gives_zero_witness :
  sample_corpus ≠ [] ∧ "A" ≠ "B"
  ∧ ∃ t, ContingencyTable.__init__ "A" "B" sample_corpus = Ok t
    ∧ (ContingencyTable.O_11 t * ContingencyTable.N t
       = ContingencyTable.R_1 t * ContingencyTable.C_1 t)%Z
    ∧ ContingencyTable.mutual_information t = Ok 0%R
    ∧ ContingencyTable.log_likelihood t = Ok 0%R.
Proof.
  assert (sample_corpus ≠ []) as Hne by discriminate.
  assert ("A" ≠ "B") as Hab by discriminate.
  repeat (split; [done|]).
  destruct (independence_gives_zero "A" "B" sample_corpus Hne Hab)
    as (t & Ht & Hzero).
  exists t. split; [exact Ht|].
  assert (ContingencyTable.O_11 t * ContingencyTable.N t
          = ContingencyTable.R_1 t * ContingencyTable.C_1 t)%Z as Hind.
  { rewrite (init_nonempty "A" "B" sample_corpus Hne) in Ht.
    injection Ht as <-. vm_compute. reflexivity. }
  split; [exact Hind|exact (Hzero Hind)].
Defined.

(** ** Bounds on a base-2 logarithm *)

Lemma Rdiv_lt_cross (a b c d : R) :
  (0 < b)%R → (0 < d)%R → (a * d < c * b)%R → (a / b < c / d)%R.
Proof.
  intros Hb Hd H. apply (Rmult_lt_reg_r (b * d)); [nra|].
  replace (a / b * (b * d))%R with (a * d)%R by (field; lra).
  replace (c / d * (b * d))%R with (c * b)%R by (field; lra).
  exact H.
Qed.

Lemma Rlt_mult_inv_r (a b c : R) :
  (0 < c)%R → (a * c < b)%R → (a < b * / c)%R.
Proof.
  intros Hc H. apply (Rmult_lt_reg_r c); [exact Hc|].
  replace (b * / c * c)%R with b by (field; lra). exact H.
Qed.

Lemma Rlt_mult_inv_l (a b c : R) :
  (0 < c)%R → (a < b * c)%R → (a * / c < b)%R.
Proof.
  intros Hc H. apply (Rmult_lt_reg_r c); [exact Hc|].
  replace (a * / c * c)%R with a by (field; lra). exact H.
Qed.

Lemma ln_2_pos : (0 < ln 2)%R.
Proof. pose proof ln_lt_2. lra. Qed.

(** [p / q < log2 x] as soon as [2 ^ p < x ^ q]. *)
Lemma Rlog2_lower (x : R) (p q : nat) :
  (0 < x)%R → (0 < q)%nat → (2 ^ p < x ^ q)%R →
  (INR p / INR q < Rlog2 x)%R.
Proof.
  intros Hx Hq Hpow. unfold Rlog2.
  apply Rdiv_lt_cross; [by apply lt_0_INR | apply ln_2_pos |].
  rewrite <- (ln_pow 2) by lra.
  rewrite (Rmult_comm (ln x)), <- (ln_pow x) by exact Hx.
  apply ln_increasing; [apply pow_lt; lra | exact Hpow].
Qed.

(** [log2 x < p / q] as soon as [x ^ q < 2 ^ p]. *)
Lemma Rlog2_upper (x : R) (p q : nat) :
  (0 < x)%R → (0 < q)%nat → (x ^ q < 2 ^ p)%R →
  (Rlog2 x < INR p / INR q)%R.
Proof.
  intros Hx Hq Hpow. unfold Rlog2.
  apply Rdiv_lt_cross; [apply ln_2_pos | by apply lt_0_INR |].
  rewrite <- (ln_pow 2) by lra.
  rewrite (Rmult_comm (ln x)), <- (ln_pow x) by exact Hx.
  apply ln_increasing; [by apply pow_lt | exact Hpow].
Qed.

(** [log2 1.25] lies between [47 / 146] and [66 / 205]. *)
Lemma Rlog2_five_quarters :
  (47 / 146 < Rlog2 (5 / 4) < 66 / 205)%R.
Proof.
  change (47 / 146)%R with (IZR (Z.of_nat 47) / IZR (Z.of_nat 146))%R.
  change (66 / 205)%R with (IZR (Z.of_nat 66) / IZR (Z.of_nat 205))%R.
  rewrite <- !INR_IZR_INZ.
  split.
  - apply Rlog2_lower; [lra | lia |].
    unfold Rdiv. rewrite Rpow_mult_distr, pow_inv.
    apply Rlt_mult_inv_r; [apply pow_lt; lra|].
    rewrite !pow_IZR, <- mult_IZR. apply IZR_lt.
    vm_compute. reflexivity.
  - apply Rlog2_upper; [lra | lia |].
    unfold Rdiv. rewrite Rpow_mult_distr, pow_inv.
    apply Rlt_mult_inv_l; [apply pow_lt; lra|].
    rewrite !pow_IZR, <- mult_IZR. apply IZR_lt.
    vm_compute. reflexivity.
Qed.

(** ** The concrete scenario *)

Lemma sample_counts :
  count_if (λ b, ("A" ∈ b) ∧ ("B" ∈ b)) sample_corpus = 1%Z
  ∧ count_if (λ b, ("A" ∈ b) ∧ ("B" ∉ b)) sample_corpus = 1%Z
  ∧ count_if (λ b, ("A" ∉ b) ∧ ("B" ∈ b)) sample_corpus = 1%Z
  ∧ count_if (λ b, ("A" ∉ b) ∧ ("B" ∉ b)) sample_corpus = 1%Z
  ∧ count_if (λ b, "A" ∈ b) sample_corpus = 2%Z
  ∧ count_if (λ b, "B" ∈ b) sample_corpus = 2%Z
  ∧ total_len sample_corpus = 5%Z.
Proof. repeat split; vm_compute; reflexivity. Qed.

(** C8. On the corpus [{A, B}, {A}, {B}, {C}] the table of [(A, B)] has
    all four observed counts equal to [1], all four marginals equal to
    [2], [N = 4] and all four expected counts equal to [1], and
    [mutual_information()] returns [0];
    [local_mutual_information(A, B, corpus)] has [O = 1], [freq_A = 2],
    [freq_B = 2], a total of [5] occurrences and [E = 0.8], and returns
    [log2 1.25], which lies between [0.3219] and [0.3220]. *)
Theorem concrete_scenario :
  (∃ t, ContingencyTable.__init__ "A" "B" sample_corpus = Ok t
     ∧ ContingencyTable.O_11 t = 1%Z ∧ ContingencyTable.O_12 t = 1%Z
     ∧ ContingencyTable.O_21 t = 1%Z ∧ ContingencyTable.O_22 t = 1%Z
     ∧ ContingencyTable.R_1 t = 2%Z ∧ ContingencyTable.R_2 t = 2%Z
     ∧ ContingencyTable.C_1 t = 2%Z ∧ ContingencyTable.C_2 t = 2%Z
     ∧ ContingencyTable.N t = 4%Z
     ∧ ContingencyTable.E_11 t = 1%R ∧ ContingencyTable.E_12 t = 1%R
     ∧ ContingencyTable.E_21 t = 1%R ∧ ContingencyTable.E_22 t = 1%R
     ∧ ContingencyTable.mutual_information t = Ok 0%R)
  ∧ count_if (λ b, ("A" ∈ b) ∧ ("B" ∈ b)) sample_corpus = 1%Z
  ∧ count_if (λ b, "A" ∈ b) sample_corpus = 2%Z
  ∧ count_if (λ b, "B" ∈ b) sample_corpus = 2%Z
  ∧ total_len sample_corpus = 5%Z
  ∧ (IZR (count_if (λ b, "A" ∈ b) sample_corpus
          * count_if (λ b, "B" ∈ b) sample_corpus)
     / IZR (total_len sample_corpus) = 0.8)%R
  ∧ local_mutual_information "A" "B" sample_corpus = Ok (Rlog2 1.25)
  ∧ (0.3219 < Rlog2 1.25 < 0.3220)%R.
Proof.
  destruct sample_counts as (H11 & H12 & H21 & H22 & HA & HB & HN).
  assert (sample_corpus ≠ []) as Hne by discriminate.
  split.
  { destruct (init_safe "A" "B" sample_corpus Hne)
      as (t & Ht & Hnn & Hsafe).
    exists t. split; [exact Ht|].
    rewrite mutual_information_eval by done.
    rewrite (init_nonempty "A" "B" sample_corpus Hne) in Ht.
    injection Ht as <-. simpl. rewrite H11, H12, H21, H22.
    change ((1 + 1) * (1 + 1))%Z with (1 * 4)%Z.
    change (1 + 1 + (1 + 1))%Z with 4%Z.
    rewrite !(cell_term_independent Rlog2)
      by first [apply Rlog2_1 | done].
    repeat split; try reflexivity; try (rewrite mult_IZR; lra).
    f_equal. lra. }
  rewrite H11, HA, HB, HN.
  repeat split; try reflexivity.
  - rewrite mult_IZR. lra.
  - destruct (local_mutual_information_pos "A" "B" sample_corpus)
      as [_ ->]; [by rewrite H11|].
    rewrite H11, HA, HB, HN. do 2 f_equal. rewrite mult_IZR. lra.
  - replace 1.25%R with (5 / 4)%R by lra.
    apply Rlt_trans with (47 / 146)%R;
      [lra|apply Rlog2_five_quarters].
  - replace 1.25%R with (5 / 4)%R by lra.
    apply Rlt_trans with (66 / 205)%R;
      [apply Rlog2_five_quarters|lra].
Qed.

(** ** The same item twice *)



(** * Further properties *)

(** ** Counting over concatenated, repeated and reordered corpora *)

Section CountingMore.

Implicit Types (b : gset string) (baskets : list (gset string)).

Lemma count_if_app (P : gset string → Prop) `{!∀ b, Decision (P b)}
    baskets baskets' :
  count_if P (baskets ++ baskets')
  = (count_if P baskets + count_if P baskets')%Z.
Proof.
  induction baskets as [|b baskets IH]; [rewrite count_if_nil; done|].
  rewrite <- app_comm_cons, !count_if_cons, IH. lia.
Qed.

Lemma total_len_app baskets baskets' :
  total_len (baskets ++ baskets')
  = (total_len baskets + total_len baskets')%Z.
Proof.
  induction baskets as [|b baskets IH]; [rewrite total_len_nil; done|].
  rewrite <- app_comm_cons, !total_len_cons, IH. lia.
Qed.

Lemma count_if_times (P : gset string → Prop) `{!∀ b, Decision (P b)}
    (k : nat) baskets :
  count_if P (times k baskets) = (Z.of_nat k * count_if P baskets)%Z.
Proof.
  induction k as [|k IH]; simpl times.
  - rewrite count_if_nil. lia.
  - rewrite count_if_app, IH. lia.
Qed.

Lemma total_len_times (k : nat) baskets :
  total_len (times k baskets) = (Z.of_nat k * total_len baskets)%Z.
Proof.
  induction k as [|k IH]; simpl times.
  - rewrite total_len_nil. lia.
  - rewrite total_len_app, IH. lia.
Qed.

Lemma times_nonempty (k : nat) baskets :
  (0 < k)%nat → baskets ≠ [] → times k baskets ≠ [].
Proof.
  intros Hk Hne. destruct k as [|k]; [lia|]. simpl.
  destruct baskets; [done|]. discriminate.
Qed.

Lemma count_if_perm (P : gset string → Prop) `{!∀ b, Decision (P b)}
    baskets baskets' :
  baskets ≡ₚ baskets' → count_if P baskets = count_if P baskets'.
Proof.
  induction 1 as [|b l l' _ IH|b b' l|l l' l'' _ IH1 _ IH2].
  - reflexivity.
  - rewrite !count_if_cons, IH. reflexivity.
  - rewrite !count_if_cons. lia.
  - congruence.
Qed.

Lemma total_len_perm baskets baskets' :
  baskets ≡ₚ baskets' → total_len baskets = total_len baskets'.
Proof.
  induction 1 as [|b l l' _ IH|b b' l|l l' l'' _ IH1 _ IH2].
  - reflexivity.
  - rewrite !total_len_cons, IH. reflexivity.
  - rewrite !total_len_cons. lia.
  - congruence.
Qed.

(** A basket that holds [i] counts for at least one occurrence. *)
Lemma freq_le_total_len (i : string) baskets :
  (count_if (λ b, i ∈ b) baskets ≤ total_len baskets)%Z.
Proof.
  induction baskets as [|b baskets IH]; [reflexivity|].
  rewrite count_if_cons, total_len_cons.
  destruct (decide (i ∈ b)) as [Hi|_]; [|lia].
  assert (size b ≠ 0); [|lia].
  intros Hz. apply size_empty_inv in Hz. set_solver.
Qed.

End CountingMore.

(** ** The metrics of a table, from its four counts *)

Section MetricsOfCounts.

Variables (i j : string) (baskets : list (gset string)).

Let o11 := count_if (λ b, (i ∈ b) ∧ (j ∈ b)) baskets.
Let o12 := count_if (λ b, (i ∈ b) ∧ (j ∉ b)) baskets.
Let o21 := count_if (λ b, (i ∉ b) ∧ (j ∈ b)) baskets.
Let o22 := count_if (λ b, (i ∉ b) ∧ (j ∉ b)) baskets.

Lemma mutual_information_counts :
  baskets ≠ [] →
  ContingencyTable.__init__ i j baskets
    ≫= ContingencyTable.mutual_information
  = Ok (log_ratio_sum Rlog2 o11 o12 o21 o22).
Proof.
  intros Hne.
  destruct (init_safe i j baskets Hne) as (t & Ht & Hnn & Hsafe).
  rewrite Ht. simpl. rewrite mutual_information_eval by done.
  rewrite (init_nonempty i j baskets Hne) in Ht. injection Ht as <-.
  reflexivity.
Qed.

Lemma log_likelihood_counts :
  baskets ≠ [] →
  ContingencyTable.__init__ i j baskets
    ≫= ContingencyTable.log_likelihood
  = Ok (2 * log_ratio_sum ln o11 o12 o21 o22)%R.
Proof.
  intros Hne.
  destruct (init_safe i j baskets Hne) as (t & Ht & Hnn & Hsafe).
  rewrite Ht. simpl. rewrite log_likelihood_eval by done.
  rewrite (init_nonempty i j baskets Hne) in Ht. injection Ht as <-.
  reflexivity.
Qed.

End MetricsOfCounts.

(** ** Inequalities on the logarithm *)

Lemma ln_le_sub_1 (y : R) : (0 < y)%R → (ln y <= y - 1)%R.
Proof.
  intros Hy. pose proof (exp_ineq1_le (y - 1)) as Hexp.
  replace (1 + (y - 1))%R with y in Hexp by ring.
  rewrite <- (ln_exp (y - 1)).
  destruct Hexp as [Hlt|Heq].
  - left. apply ln_increasing; assumption.
  - right. congruence.
Qed.

Lemma ln_lt_sub_1 (y : R) : (0 < y)%R → y ≠ 1%R → (ln y < y - 1)%R.
Proof.
  intros Hy Hne. assert (y - 1 ≠ 0)%R as Hnz by lra.
  pose proof (exp_ineq1 (y - 1) Hnz) as Hexp.
  replace (1 + (y - 1))%R with y in Hexp by ring.
  rewrite <- (ln_exp (y - 1)). apply ln_increasing; assumption.
Qed.

Lemma ln_quot_flip (a b : R) :
  (0 < a)%R → (0 < b)%R → ln (a / b) = (- ln (b / a))%R.
Proof.
  intros Ha Hb. rewrite <- ln_Rinv by (by apply Rdiv_lt_0_compat).
  f_equal. field. lra.
Qed.

(** A guarded term is at least the excess of the observed count over
    the expected one, with equality only when they are the same. *)
Lemma cell_term_ln_ge (O : Z) (E : R) :
  (0 ≤ O)%Z → ((0 < O)%Z → (0 < E)%R) → (0 <= E)%R →
  (IZR O - E <= cell_term ln O E)%R.
Proof.
  intros HO Hpos HE. unfold cell_term.
  destruct (decide (O = 0%Z)) as [->|Hnz]; [lra|].
  assert (0 < O)%Z as HO' by lia. specialize (Hpos HO').
  apply IZR_lt in HO'.
  rewrite ln_quot_flip by assumption.
  pose proof (ln_le_sub_1 (E / IZR O)) as Hln.
  specialize (Hln (Rdiv_lt_0_compat _ _ Hpos HO')).
  replace (IZR O - E)%R with (IZR O * - (E / IZR O - 1))%R
    by (field; lra).
  apply Rmult_le_compat_l; lra.
Qed.

Lemma cell_term_ln_tight (O : Z) (E : R) :
  (0 ≤ O)%Z → ((0 < O)%Z → (0 < E)%R) → (0 <= E)%R →
  (cell_term ln O E <= IZR O - E)%R → E = IZR O.
Proof.
  intros HO Hpos HE. unfold cell_term.
  destruct (decide (O = 0%Z)) as [->|Hnz]; [lra|].
  assert (0 < O)%Z as HO' by lia. specialize (Hpos HO').
  apply IZR_lt in HO'. intros Hle.
  destruct (Req_dec_T (E / IZR O) 1) as [Heq|Hne].
  - apply (Rmult_eq_compat_r (IZR O)) in Heq.
    replace (E / IZR O * IZR O)%R with E in Heq by (field; lra). lra.
  - exfalso. rewrite ln_quot_flip in Hle by assumption.
    pose proof (ln_lt_sub_1 (E / IZR O)
                  (Rdiv_lt_0_compat _ _ Hpos HO') Hne) as Hln.
    replace (IZR O - E)%R with (IZR O * - (E / IZR O - 1))%R in Hle
      by (field; lra).
    apply Rmult_le_reg_l in Hle; lra.
Qed.

Lemma cell_term_log2 (O : Z) (E : R) :
  cell_term Rlog2 O E = (cell_term ln O E / ln 2)%R.
Proof.
  unfold cell_term, Rlog2. pose proof ln_2_pos.
  destruct (decide (O = 0%Z)); field; lra.
Qed.

(** Multiplying the observed and the expected count by [k] multiplies
    the term by [k]. *)
Lemma cell_term_scale (lg : R → R) (k O : Z) (E : R) :
  (0 < k)%Z → (O ≠ 0%Z → E ≠ 0%R) →
  cell_term lg (k * O) (IZR k * E) = (IZR k * cell_term lg O E)%R.
Proof.
  intros Hk HE. unfold cell_term.
  destruct (decide (O = 0%Z)) as [->|Hnz].
  - rewrite Z.mul_0_r. destruct (decide (0 = 0)%Z); [ring|done].
  - destruct (decide (k * O = 0)%Z) as [Hz|_]; [nia|].
    apply IZR_lt in Hk. specialize (HE Hnz).
    rewrite mult_IZR.
    replace (IZR k * IZR O / (IZR k * E))%R with (IZR O / E)%R
      by (field; lra).
    ring.
Qed.

(** ** The log-ratio sum of four counts *)

Section LogRatioSum.

Variables o11 o12 o21 o22 : Z.
Hypothesis H11 : (0 ≤ o11)%Z.
Hypothesis H12 : (0 ≤ o12)%Z.
Hypothesis H21 : (0 ≤ o21)%Z.
Hypothesis H22 : (0 ≤ o22)%Z.
Hypothesis Hn : (0 < o11 + o21 + (o12 + o22))%Z.

Let n := (o11 + o21 + (o12 + o22))%Z.
Let e11 := (IZR ((o11 + o12) * (o11 + o21)) / IZR n)%R.
Let e12 := (IZR ((o11 + o12) * (o12 + o22)) / IZR n)%R.
Let e21 := (IZR ((o21 + o22) * (o11 + o21)) / IZR n)%R.
Let e22 := (IZR ((o21 + o22) * (o12 + o22)) / IZR n)%R.

Lemma expected_nonneg :
  (0 <= e11 ∧ 0 <= e12 ∧ 0 <= e21 ∧ 0 <= e22)%R.
Proof.
  subst e11 e12 e21 e22 n.
  repeat split; apply IZR_quot_nonneg; nia.
Qed.

Lemma expected_pos :
  ((0 < o11)%Z → (0 < e11)%R) ∧ ((0 < o12)%Z → (0 < e12)%R)
  ∧ ((0 < o21)%Z → (0 < e21)%R) ∧ ((0 < o22)%Z → (0 < e22)%R).
Proof.
  subst e11 e12 e21 e22 n.
  repeat split; intros HO; apply IZR_quot_pos; nia.
Qed.

(** The expected counts add up to the total, like the observed ones. *)
Lemma expected_total :
  (e11 + e12 + e21 + e22 = IZR o11 + IZR o12 + IZR o21 + IZR o22)%R.
Proof.
  subst e11 e12 e21 e22 n.
  assert (IZR (o11 + o21 + (o12 + o22)) ≠ 0%R) as Hr
    by (apply not_0_IZR; lia).
  rewrite !mult_IZR. rewrite !plus_IZR in *. field. exact Hr.
Qed.

(** Gibbs' inequality on the four cells. *)
Lemma log_ratio_sum_ln_nonneg :
  (0 <= log_ratio_sum ln o11 o12 o21 o22)%R.
Proof.
  unfold log_ratio_sum. fold n. fold e11 e12 e21 e22.
  destruct expected_nonneg as (N11 & N12 & N21 & N22).
  destruct expected_pos as (P11 & P12 & P21 & P22).
  pose proof expected_total as Htot.
  pose proof (cell_term_ln_ge o11 e11 H11 P11 N11).
  pose proof (cell_term_ln_ge o12 e12 H12 P12 N12).
  pose proof (cell_term_ln_ge o21 e21 H21 P21 N21).
  pose proof (cell_term_ln_ge o22 e22 H22 P22 N22).
  lra.
Qed.

(** The sum vanishes only on counts that factorize. *)
Lemma log_ratio_sum_ln_zero :
  log_ratio_sum ln o11 o12 o21 o22 = 0%R →
  (o11 * n = (o11 + o12) * (o11 + o21))%Z.
Proof.
  unfold log_ratio_sum. fold n. fold e11 e12 e21 e22. intros Hz.
  destruct expected_nonneg as (N11 & N12 & N21 & N22).
  destruct expected_pos as (P11 & P12 & P21 & P22).
  pose proof expected_total as Htot.
  pose proof (cell_term_ln_ge o11 e11 H11 P11 N11).
  pose proof (cell_term_ln_ge o12 e12 H12 P12 N12).
  pose proof (cell_term_ln_ge o21 e21 H21 P21 N21).
  pose proof (cell_term_ln_ge o22 e22 H22 P22 N22).
  assert (e11 = IZR o11) as He
    by (apply cell_term_ln_tight; [done..|lra]).
  subst e11. apply eq_IZR. rewrite mult_IZR, <- He.
  assert (IZR n ≠ 0%R) by (apply not_0_IZR; subst n; lia).
  field. done.
Qed.

(** Counts that factorize give the sum [0]. *)
Lemma log_ratio_sum_independent (lg : R → R) :
  lg 1%R = 0%R →
  (o11 * n = (o11 + o12) * (o11 + o21))%Z →
  log_ratio_sum lg o11 o12 o21 o22 = 0%R.
Proof.
  intros Hlg Hind. unfold log_ratio_sum. fold n.
  rewrite !(cell_term_independent lg) by (subst n; first [done|nia]).
  ring.
Qed.

Lemma log_ratio_sum_log2 :
  log_ratio_sum Rlog2 o11 o12 o21 o22
  = (log_ratio_sum ln o11 o12 o21 o22 / ln 2)%R.
Proof.
  unfold log_ratio_sum. rewrite !cell_term_log2.
  pose proof ln_2_pos. field. lra.
Qed.

(** Multiplying the four counts by [k] multiplies the sum by [k]. *)
Lemma log_ratio_sum_scale (lg : R → R) (k : Z) :
  (0 < k)%Z →
  log_ratio_sum lg (k * o11) (k * o12) (k * o21) (k * o22)
  = (IZR k * log_ratio_sum lg o11 o12 o21 o22)%R.
Proof.
  intros Hk. unfold log_ratio_sum. fold n. fold e11 e12 e21 e22.
  destruct expected_pos as (P11 & P12 & P21 & P22).
  assert (IZR n ≠ 0%R) as Hnr by (apply not_0_IZR; subst n; lia).
  assert (IZR k ≠ 0%R) as Hkr by (apply not_0_IZR; lia).
  assert (∀ r c : Z,
    (IZR ((k * r) * (k * c)) / IZR (k * (o11 + o21 + (o12 + o22)))
     = IZR k * (IZR (r * c) / IZR n))%R) as Hscale.
  { intros r c. fold n. rewrite !mult_IZR. field. done. }
  rewrite <- !Z.mul_add_distr_l, !Hscale. fold e11 e12 e21 e22.
  rewrite !cell_term_scale by
    (first [done | intros HO; assert (0 < e11)%R by (apply P11; lia); lra
           | intros HO; assert (0 < e12)%R by (apply P12; lia); lra
           | intros HO; assert (0 < e21)%R by (apply P21; lia); lra
           | intros HO; assert (0 < e22)%R by (apply P22; lia); lra]).
  ring.
Qed.

End LogRatioSum.

(** ** Sign and size of the two sums *)

(** X1. On every non-empty corpus [mutual_information()] and
    [log_likelihood()] return a value that is not negative (Gibbs'
    inequality, in exact arithmetic). *)
Theorem metrics_nonneg (i j : string) (baskets : list (gset string)) :
  baskets ≠ [] →
  ∃ m l,
    ContingencyTable.__init__ i j baskets
      ≫= ContingencyTable.mutual_information = Ok m
    ∧ ContingencyTable.__init__ i j baskets
        ≫= ContingencyTable.log_likelihood = Ok l
    ∧ (0 <= m)%R ∧ (0 <= l)%R.
Proof.
  intros Hne.
  pose proof (cells_total i j baskets) as Htot.
  pose proof (cells_nonneg i j baskets) as (H11 & H12 & H21 & H22).
  assert (0 < Z.of_nat (length baskets))%Z
    by (destruct baskets; [done | simpl length; lia]).
  eexists _, _.
  split; [by apply mutual_information_counts|].
  split; [by apply log_likelihood_counts|].
  pose proof ln_2_pos.
  rewrite log_ratio_sum_log2.
  pose proof (log_ratio_sum_ln_nonneg _ _ _ _ H11 H12 H21 H22) as Hge.
  split.
  - apply Rmult_le_pos; [apply Hge; lia|].
    left. by apply Rinv_0_lt_compat.
  - apply Rmult_le_pos; [lra|apply Hge; lia].
Qed.

Lemma metrics_nonneg_witness :
  sample_corpus ≠ []
  ∧ ∃ m l,
      ContingencyTable.__init__ "A" "C" sample_corpus
        ≫= ContingencyTable.mutual_information = Ok m
      ∧ ContingencyTable.__init__ "A" "C" sample_corpus
          ≫= ContingencyTable.log_likelihood = Ok l
      ∧ (0 <= m)%R ∧ (0 <= l)%R.
Proof.
  split; [discriminate|].
  apply (metrics_nonneg "A" "C" sample_corpus). discriminate.
Defined.

(** X2. In exact arithmetic, on every non-empty corpus
    [log_likelihood()] returns [0] exactly
    when the observed counts factorize, [O_11 * N = R_1 * C_1], and so
    does [mutual_information()]. *)
Theorem metrics_zero_iff_independent (i j : string)
    (baskets : list (gset string)) :
  baskets ≠ [] →
  ∃ t, ContingencyTable.__init__ i j baskets = Ok t
    ∧ (ContingencyTable.log_likelihood t = Ok 0%R
       ↔ (ContingencyTable.O_11 t * ContingencyTable.N t
          = ContingencyTable.R_1 t * ContingencyTable.C_1 t)%Z)
    ∧ (ContingencyTable.mutual_information t = Ok 0%R
       ↔ (ContingencyTable.O_11 t * ContingencyTable.N t
          = ContingencyTable.R_1 t * ContingencyTable.C_1 t)%Z).
Proof.
  intros Hne.
  pose proof (cells_total i j baskets) as Htot.
  pose proof (cells_nonneg i j baskets) as (H11 & H12 & H21 & H22).
  assert (0 < Z.of_nat (length baskets))%Z
    by (destruct baskets; [done | simpl length; lia]).
  pose proof (mutual_information_counts i j baskets Hne) as HMI.
  pose proof (log_likelihood_counts i j baskets Hne) as HLL.
  rewrite (init_nonempty i j baskets Hne) in HMI, HLL.
  eexists. split; [by apply init_nonempty|].
  simpl in HMI, HLL. rewrite HMI, HLL. simpl.
  pose proof ln_2_pos as Hln2.
  pose proof (log_ratio_sum_ln_zero _ _ _ _ H11 H12 H21 H22) as Hzero.
  split; split.
  - intros [= Hz]. apply Hzero; [lia|lra].
  - intros Hind. f_equal.
    rewrite (log_ratio_sum_independent _ _ _ _) by
      first [lia | apply ln_1 | exact Hind].
    ring.
  - intros [= Hz]. rewrite log_ratio_sum_log2 in Hz.
    apply Hzero; [lia|].
    apply (Rmult_eq_compat_r (ln 2)) in Hz.
    rewrite Rmult_0_l in Hz. rewrite <- Hz. field. lra.
  - intros Hind. f_equal.
    apply log_ratio_sum_independent;
      first [lia | apply Rlog2_1 | exact Hind].
Qed.

Lemma metrics_zero_iff_independent_witness :
  sample_corpus ≠ []
  ∧ ∃ t, ContingencyTable.__init__ "A" "C" sample_corpus = Ok t
      ∧ ContingencyTable.log_likelihood t ≠ Ok 0%R
      ∧ ContingencyTable.mutual_information t ≠ Ok 0%R.
Proof.
  assert (sample_corpus ≠ []) as Hne by discriminate.
  split; [exact Hne|].
  destruct (metrics_zero_iff_independent "A" "C" sample_corpus Hne)
    as (t & Ht & HLL & HMI).
  exists t. split; [exact Ht|].
  assert ((ContingencyTable.O_11 t * ContingencyTable.N t)%Z
          ≠ (ContingencyTable.R_1 t * ContingencyTable.C_1 t)%Z) as Hdep.
  { rewrite (init_nonempty "A" "C" sample_corpus Hne) in Ht.
    injection Ht as <-. vm_compute. discriminate. }
  split; intros Hz; apply Hdep; [by apply HLL|by apply HMI].
Defined.

(** X3. On every non-empty corpus the log-likelihood is the mutual
    information times [2 * ln 2]: the two metrics rank the pairs of
    items in the same order. *)
Theorem log_likelihood_of_mutual_information (i j : string)
    (baskets : list (gset string)) :
  baskets ≠ [] →
  ∃ m,
    ContingencyTable.__init__ i j baskets
      ≫= ContingencyTable.mutual_information = Ok m
    ∧ ContingencyTable.__init__ i j baskets
        ≫= ContingencyTable.log_likelihood = Ok (2 * ln 2 * m)%R.
Proof.
  intros Hne. eexists.
  split; [by apply mutual_information_counts|].
  rewrite log_likelihood_counts by done. f_equal.
  rewrite log_ratio_sum_log2. pose proof ln_2_pos. field. lra.
Qed.

Lemma log_likelihood_of_mutual_information_witness :
  sample_corpus ≠ []
  ∧ ∃ m,
      ContingencyTable.__init__ "A" "C" sample_corpus
        ≫= ContingencyTable.mutual_information = Ok m
      ∧ ContingencyTable.__init__ "A" "C" sample_corpus
          ≫= ContingencyTable.log_likelihood = Ok (2 * ln 2 * m)%R.
Proof.
  split; [discriminate|].
  apply (log_likelihood_of_mutual_information "A" "C" sample_corpus).
  discriminate.
Defined.

(** ** Repeating and reordering the corpus *)

(** X4. In exact arithmetic, repeating a non-empty corpus [k] times
    multiplies
    [mutual_information()] and [log_likelihood()] by [k]: both grow with
    the size of the sample. *)
Theorem metrics_scale_with_corpus (i j : string)
    (baskets : list (gset string)) (k : nat) :
  (0 < k)%nat → baskets ≠ [] →
  ∃ m l,
    ContingencyTable.__init__ i j baskets
      ≫= ContingencyTable.mutual_information = Ok m
    ∧ ContingencyTable.__init__ i j baskets
        ≫= ContingencyTable.log_likelihood = Ok l
    ∧ ContingencyTable.__init__ i j (times k baskets)
        ≫= ContingencyTable.mutual_information = Ok (INR k * m)%R
    ∧ ContingencyTable.__init__ i j (times k baskets)
        ≫= ContingencyTable.log_likelihood = Ok (INR k * l)%R.
Proof.
  intros Hk Hne.
  pose proof (times_nonempty k baskets Hk Hne) as Hne'.
  pose proof (cells_total i j baskets) as Htot.
  pose proof (cells_nonneg i j baskets) as (H11 & H12 & H21 & H22).
  assert (0 < Z.of_nat (length baskets))%Z
    by (destruct baskets; [done | simpl length; lia]).
  eexists _, _.
  split; [by apply mutual_information_counts|].
  split; [by apply log_likelihood_counts|].
  rewrite mutual_information_counts, log_likelihood_counts by done.
  rewrite !count_if_times, !log_ratio_sum_scale by lia.
  rewrite INR_IZR_INZ. split; f_equal; ring.
Qed.

Lemma metrics_scale_with_corpus_witness :
  (0 < 3)%nat ∧ sample_corpus ≠ []
  ∧ ∃ m l,
      ContingencyTable.__init__ "A" "C" sample_corpus
        ≫= ContingencyTable.mutual_information = Ok m
      ∧ ContingencyTable.__init__ "A" "C" sample_corpus
          ≫= ContingencyTable.log_likelihood = Ok l
      ∧ ContingencyTable.__init__ "A" "C" (times 3 sample_corpus)
          ≫= ContingencyTable.mutual_information = Ok (INR 3 * m)%R
      ∧ ContingencyTable.__init__ "A" "C" (times 3 sample_corpus)
          ≫= ContingencyTable.log_likelihood = Ok (INR 3 * l)%R.
Proof.
  split; [lia|]. split; [discriminate|].
  apply (metrics_scale_with_corpus "A" "C" sample_corpus 3);
    [lia|discriminate].
Defined.

(** X5. In exact arithmetic, repeating the corpus [k >= 1] times leaves
    [local_mutual_information] unchanged: the score does not take the
    size of the sample into account. *)
Theorem local_mutual_information_scale_invariant (i j : string)
    (baskets : list (gset string)) (k : nat) :
  (0 < k)%nat →
  local_mutual_information i j (times k baskets)
  = local_mutual_information i j baskets.
Proof.
  intros Hk.
  pose proof (cooccurrence_nonneg i j baskets) as HO.
  destruct (decide (count_if (λ b, (i ∈ b) ∧ (j ∈ b)) baskets = 0%Z))
    as [Hz|Hnz].
  - rewrite !local_mutual_information_zero;
      [done..|rewrite count_if_times, Hz; lia].
  - destruct (local_mutual_information_pos i j baskets) as [HE ->];
      [lia|].
    destruct (local_mutual_information_pos i j (times k baskets))
      as [HE' ->]; [rewrite count_if_times; nia|].
    rewrite !count_if_times, total_len_times in *.
    f_equal. f_equal.
    destruct (cooccurrence_total i j baskets) as [HN _]; [lia|].
    pose proof (cooccurrence_le_freq i j baskets) as [Hi Hj].
    assert (IZR (Z.of_nat k) ≠ 0%R) by (apply not_0_IZR; lia).
    assert (IZR (total_len baskets) ≠ 0%R) by (apply not_0_IZR; lia).
    assert (IZR (count_if (λ b, i ∈ b) baskets) ≠ 0%R)
      by (apply not_0_IZR; lia).
    assert (IZR (count_if (λ b, j ∈ b) baskets) ≠ 0%R)
      by (apply not_0_IZR; lia).
    rewrite !mult_IZR. field. done.
Qed.

Lemma local_mutual_information_scale_invariant_witness :
  (0 < 3)%nat
  ∧ local_mutual_information "A" "B" (times 3 sample_corpus)
    = local_mutual_information "A" "B" sample_corpus.
Proof.
  split; [lia|].
  apply (local_mutual_information_scale_invariant "A" "B"
           sample_corpus 3).
  lia.
Defined.

Lemma init_perm_counts (i j : string) (baskets baskets' : list (gset string))
    (f : ContingencyTable.t → result R) :
  (∀ t t',
     ContingencyTable.O_11 t = ContingencyTable.O_11 t' →
     ContingencyTable.O_12 t = ContingencyTable.O_12 t' →
     ContingencyTable.O_21 t = ContingencyTable.O_21 t' →
     ContingencyTable.O_22 t = ContingencyTable.O_22 t' →
     ContingencyTable.E_11 t = ContingencyTable.E_11 t' →
     ContingencyTable.E_12 t = ContingencyTable.E_12 t' →
     ContingencyTable.E_21 t = ContingencyTable.E_21 t' →
     ContingencyTable.E_22 t = ContingencyTable.E_22 t' →
     f t = f t') →
  baskets ≡ₚ baskets' →
  ContingencyTable.__init__ i j baskets ≫= f
  = ContingencyTable.__init__ i j baskets' ≫= f.
Proof.
  intros Hf Hperm.
  destruct baskets as [|b bs].
  { apply Permutation_nil_l in Hperm as ->. reflexivity. }
  assert (baskets' ≠ []) as Hne'.
  { intros ->. by apply Permutation_nil_r in Hperm. }
  rewrite (init_nonempty i j (b :: bs)), (init_nonempty i j baskets')
    by done.
  simpl. apply Hf; simpl;
    rewrite ?(count_if_perm _ _ _ Hperm); reflexivity.
Qed.

(** X6. The order of the baskets does not matter: on a reordered corpus the
    three metrics return the same result, a value or an exception. *)
Theorem metrics_order_independent (i j : string)
    (baskets baskets' : list (gset string)) :
  baskets ≡ₚ baskets' →
  ContingencyTable.__init__ i j baskets
    ≫= ContingencyTable.mutual_information
  = ContingencyTable.__init__ i j baskets'
      ≫= ContingencyTable.mutual_information
  ∧ ContingencyTable.__init__ i j baskets
      ≫= ContingencyTable.log_likelihood
    = ContingencyTable.__init__ i j baskets'
        ≫= ContingencyTable.log_likelihood
  ∧ local_mutual_information i j baskets
    = local_mutual_information i j baskets'.
Proof.
  intros Hperm. split; [|split].
  - apply init_perm_counts; [|done].
    intros t t' E1 E2 E3 E4 E5 E6 E7 E8.
    unfold ContingencyTable.mutual_information.
    rewrite E1, E2, E3, E4, E5, E6, E7, E8. reflexivity.
  - apply init_perm_counts; [|done].
    intros t t' E1 E2 E3 E4 E5 E6 E7 E8.
    unfold ContingencyTable.log_likelihood.
    rewrite E1, E2, E3, E4, E5, E6, E7, E8. reflexivity.
  - unfold local_mutual_information.
    rewrite !(count_if_perm _ _ _ Hperm), (total_len_perm _ _ Hperm).
    reflexivity.
Qed.

Lemma metrics_order_independent_witness :
  sample_corpus ≡ₚ reverse sample_corpus
  ∧ ContingencyTable.__init__ "A" "B" sample_corpus
      ≫= ContingencyTable.log_likelihood
    = ContingencyTable.__init__ "A" "B" (reverse sample_corpus)
        ≫= ContingencyTable.log_likelihood
  ∧ local_mutual_information "A" "B" sample_corpus
    = local_mutual_information "A" "B" (reverse sample_corpus).
Proof.
  assert (sample_corpus ≡ₚ reverse sample_corpus) as Hperm
    by (symmetry; apply reverse_Permutation).
  split; [exact Hperm|].
  destruct (metrics_order_independent "A" "B" _ _ Hperm)
    as (_ & HLL & HL).
  split; [exact HLL|exact HL].
Defined.

(** ** The sign of the local mutual information *)

Lemma ln_sign (x : R) :
  (0 < x)%R →
  ((0 < ln x)%R ↔ (1 < x)%R) ∧ (ln x = 0%R ↔ x = 1%R)
  ∧ ((ln x < 0)%R ↔ (x < 1)%R).
Proof.
  intros Hx. rewrite <- ln_1. repeat split.
  - apply ln_lt_inv; lra.
  - apply ln_increasing; lra.
  - apply ln_inv; lra.
  - by intros ->.
  - apply ln_lt_inv; lra.
  - by apply ln_increasing.
Qed.

Lemma Rlog2_sign (x : R) :
  (0 < x)%R →
  ((0 < Rlog2 x)%R ↔ (1 < x)%R) ∧ (Rlog2 x = 0%R ↔ x = 1%R)
  ∧ ((Rlog2 x < 0)%R ↔ (x < 1)%R).
Proof.
  intros Hx. destruct (ln_sign x Hx) as (Hp & Hz & Hn).
  pose proof ln_2_pos as H2. unfold Rlog2.
  assert (ln x = ln x / ln 2 * ln 2)%R as Hmul by (field; lra).
  rewrite <- Hp, <- Hz, <- Hn. repeat split; intros H.
  - rewrite Hmul. by apply Rmult_lt_0_compat.
  - by apply Rdiv_lt_0_compat.
  - rewrite Hmul, H. ring.
  - rewrite H. field. lra.
  - rewrite Hmul. nra.
  - apply (Rmult_lt_reg_r (ln 2)); [done|]. rewrite <- Hmul. lra.
Qed.

(** A quotient of integer quotients compared with [1]. *)
Lemma quot_quot_order (o f n : Z) :
  (0 < o)%Z → (0 < f)%Z → (0 < n)%Z →
  let x := (IZR o / (IZR f / IZR n))%R in
  (0 < x)%R
  ∧ ((1 < x)%R ↔ (f < o * n)%Z) ∧ (x = 1%R ↔ (o * n)%Z = f)
  ∧ ((x < 1)%R ↔ (o * n < f)%Z).
Proof.
  intros Ho Hf Hn x.
  assert (0 < IZR o)%R as Hor by (by apply IZR_lt).
  assert (0 < IZR f)%R as Hfr by (by apply IZR_lt).
  assert (0 < IZR n)%R as Hnr by (by apply IZR_lt).
  assert (x = IZR (o * n) / IZR f)%R as ->
    by (subst x; rewrite mult_IZR; field; lra).
  assert (∀ a : R, a = (a / IZR f * IZR f)%R) as Hmul
    by (intros a; field; lra).
  repeat split.
  - apply Rdiv_lt_0_compat; [apply IZR_lt; nia|done].
  - intros H. apply lt_IZR. rewrite (Hmul (IZR (o * n))). nra.
  - intros H. apply IZR_lt in H.
    apply (Rmult_lt_reg_r (IZR f)); [done|]. rewrite <- Hmul. lra.
  - intros H. apply eq_IZR. rewrite (Hmul (IZR (o * n))), H. ring.
  - intros <-. field. lra.
  - intros H. apply lt_IZR. rewrite (Hmul (IZR (o * n))). nra.
  - intros H. apply IZR_lt in H.
    apply (Rmult_lt_reg_r (IZR f)); [done|]. rewrite <- Hmul. lra.
Qed.

(** X7. In exact arithmetic, when the two items occur together at least
    once,
    [local_mutual_information] returns a value whose sign is that of
    [O * N - freq_i * freq_j], where [N] is the total number of item
    occurrences: positive, zero or negative as the observed count is
    above, at or below the expected one. *)
Theorem local_mutual_information_sign (i j : string)
    (baskets : list (gset string)) :
  let O := count_if (λ b, (i ∈ b) ∧ (j ∈ b)) baskets in
  let freq_i := count_if (λ b, i ∈ b) baskets in
  let freq_j := count_if (λ b, j ∈ b) baskets in
  let N := total_len baskets in
  (0 < O)%Z →
  ∃ v, local_mutual_information i j baskets = Ok v
    ∧ ((0 < v)%R ↔ (freq_i * freq_j < O * N)%Z)
    ∧ (v = 0%R ↔ (O * N = freq_i * freq_j)%Z)
    ∧ ((v < 0)%R ↔ (O * N < freq_i * freq_j)%Z).
Proof.
  intros O freq_i freq_j N HO.
  destruct (local_mutual_information_pos i j baskets HO) as [_ Hv].
  eexists. split; [exact Hv|]. fold O freq_i freq_j N.
  pose proof (cooccurrence_le_freq i j baskets) as [Hi Hj].
  destruct (cooccurrence_total i j baskets HO) as [HN _].
  fold O freq_i in Hi. fold O freq_j in Hj. fold N in HN.
  destruct (quot_quot_order O (freq_i * freq_j) N)
    as (Hx & Hgt & Heq & Hlt); [nia..|].
  destruct (Rlog2_sign _ Hx) as (Sp & Sz & Sn).
  rewrite Sp, Sz, Sn, Hgt, Heq, Hlt. done.
Qed.

Lemma local_mutual_information_sign_witness :
  (0 < count_if (λ b, ("A" ∈ b) ∧ ("B" ∈ b)) sample_corpus)%Z
  ∧ ∃ v, local_mutual_information "A" "B" sample_corpus = Ok v
         ∧ (0 < v)%R.
Proof.
  assert (0 < count_if (λ b, ("A" ∈ b) ∧ ("B" ∈ b)) sample_corpus)%Z
    as HO by (vm_compute; reflexivity).
  split; [exact HO|].
  destruct (local_mutual_information_sign "A" "B" sample_corpus HO)
    as (v & Hv & Hpos & _).
  exists v. split; [exact Hv|].
  apply Hpos. vm_compute. reflexivity.
Defined.

(** ** The table and the item frequencies *)

(** X8. In the table of a non-empty corpus the first row marginal is the
    number of baskets that hold [i], the first column marginal the number
    of baskets that hold [j], the second marginals are the numbers of
    baskets that do not, and [O_11] is the co-occurrence count of
    [local_mutual_information]. *)
Theorem marginals_are_frequencies (i j : string)
    (baskets : list (gset string)) :
  baskets ≠ [] →
  ∃ t, ContingencyTable.__init__ i j baskets = Ok t
    ∧ ContingencyTable.O_11 t
      = count_if (λ b, (i ∈ b) ∧ (j ∈ b)) baskets
    ∧ ContingencyTable.R_1 t = count_if (λ b, i ∈ b) baskets
    ∧ ContingencyTable.C_1 t = count_if (λ b, j ∈ b) baskets
    ∧ ContingencyTable.R_2 t = count_if (λ b, i ∉ b) baskets
    ∧ ContingencyTable.C_2 t = count_if (λ b, j ∉ b) baskets.
Proof.
  intros Hne. eexists. split; [by apply init_nonempty|]. simpl.
  split; [done|]. split; [apply row_1_freq|].
  split; [apply col_1_freq|]. split.
  - symmetry. apply (count_if_split (λ b, i ∉ b) (λ b, j ∈ b)).
  - rewrite (count_if_split (λ b, j ∉ b) (λ b, i ∈ b)).
    f_equal; apply count_if_ext; intros b; tauto.
Qed.

Lemma marginals_are_frequencies_witness :
  sample_corpus ≠ []
  ∧ ∃ t, ContingencyTable.__init__ "A" "C" sample_corpus = Ok t
    ∧ ContingencyTable.R_1 t = 2%Z
    ∧ ContingencyTable.C_1 t = 1%Z.
Proof.
  split; [discriminate|].
  destruct (marginals_are_frequencies "A" "C" sample_corpus)
    as (t & Ht & _ & HR & HC & _); [discriminate|].
  exists t. split; [exact Ht|].
  split; [rewrite HR|rewrite HC]; vm_compute; reflexivity.
Defined.

(** X9. The table of [(j, i)] is the table of [(i, j)] with the two
    off-diagonal cells, the row and column marginals and the
    off-diagonal expected counts exchanged; when one construction fails,
    so does the other, with the same exception. *)
Theorem table_of_swapped_items (i j : string)
    (baskets : list (gset string)) :
  (∀ t, ContingencyTable.__init__ i j baskets = Ok t →
        ContingencyTable.__init__ j i baskets = Ok (transpose t))
  ∧ (∀ e, ContingencyTable.__init__ i j baskets = Raise e →
          ContingencyTable.__init__ j i baskets = Raise e).
Proof.
  split.
  - intros t. apply init_swap.
  - intros e He. destruct baskets as [|b bs].
    + rewrite init_empty in He |- * by done. exact He.
    + rewrite (init_nonempty i j (b :: bs)) in He by done. discriminate.
Qed.

Lemma table_of_swapped_items_witness :
  ∃ t, ContingencyTable.__init__ "A" "C" sample_corpus = Ok t
    ∧ ContingencyTable.__init__ "C" "A" sample_corpus = Ok (transpose t)
    ∧ ContingencyTable.__init__ "C" "A" [] = Raise ZeroDivisionError.
Proof.
  destruct (table_of_swapped_items "A" "C" sample_corpus) as [Hok _].
  destruct (table_of_swapped_items "A" "C" []) as [_ Herr].
  destruct (init_invariant "A" "C" sample_corpus) as (t & Ht & _);
    [discriminate|].
  exists t. split; [exact Ht|]. split; [exact (Hok t Ht)|].
  apply Herr. reflexivity.
Defined.

(** X10. An item that is in no basket of a non-empty corpus is scored [0]
    with every other item by the three metrics. *)
Theorem absent_item_scores_zero (i j : string)
    (baskets : list (gset string)) :
  baskets ≠ [] →
  count_if (λ b, i ∈ b) baskets = 0%Z →
  ContingencyTable.__init__ i j baskets
    ≫= ContingencyTable.mutual_information = Ok 0%R
  ∧ ContingencyTable.__init__ i j baskets
      ≫= ContingencyTable.log_likelihood = Ok 0%R
  ∧ local_mutual_information i j baskets = Ok 0%R.
Proof.
  intros Hne Hfreq.
  pose proof (cells_total i j baskets) as Htot.
  pose proof (cells_nonneg i j baskets) as (H11 & H12 & H21 & H22).
  pose proof (row_1_freq i j baskets) as Hrow. rewrite Hfreq in Hrow.
  assert (0 < Z.of_nat (length baskets))%Z
    by (destruct baskets; [done | simpl length; lia]).
  rewrite mutual_information_counts, log_likelihood_counts by done.
  rewrite !log_ratio_sum_independent
    by first [lia | nia | apply ln_1 | apply Rlog2_1].
  split; [done|]. split; [f_equal; ring|].
  apply local_mutual_information_zero. lia.
Qed.

Lemma absent_item_scores_zero_witness :
  sample_corpus ≠ []
  ∧ count_if (λ b, "D" ∈ b) sample_corpus = 0%Z
  ∧ ContingencyTable.__init__ "D" "A" sample_corpus
      ≫= ContingencyTable.mutual_information = Ok 0%R
  ∧ ContingencyTable.__init__ "D" "A" sample_corpus
      ≫= ContingencyTable.log_likelihood = Ok 0%R
  ∧ local_mutual_information "D" "A" sample_corpus = Ok 0%R.
Proof.
  assert (sample_corpus ≠ []) as Hne by discriminate.
  assert (count_if (λ b, "D" ∈ b) sample_corpus = 0%Z) as HD
    by (vm_compute; reflexivity).
  split; [exact Hne|]. split; [exact HD|].
  exact (absent_item_scores_zero "D" "A" sample_corpus Hne HD).
Defined.

(** ** The local score against the first cell of the table *)

Lemma Rlog2_mult (x y : R) :
  (0 < x)%R → (0 < y)%R → Rlog2 (x * y) = (Rlog2 x + Rlog2 y)%R.
Proof.
  intros Hx Hy. unfold Rlog2. rewrite ln_mult by assumption.
  pose proof ln_2_pos. field. lra.
Qed.

Lemma Rlog2_le (x y : R) :
  (0 < x)%R → (x <= y)%R → (Rlog2 x <= Rlog2 y)%R.
Proof.
  intros Hx Hxy. unfold Rlog2. pose proof ln_2_pos.
  apply Rmult_le_compat_r; [left; by apply Rinv_0_lt_compat|].
  destruct Hxy as [Hlt | ->]; [left; by apply ln_increasing|right; done].
Qed.

(** X11. In exact arithmetic, when the two items occur together at least
    once, the local mutual
    information is the base-2 logarithm of [O_11 / E_11] of their table
    plus the base-2 logarithm of the mean basket size: its total is the
    number of item occurrences, the table's is the number of baskets. *)
Theorem local_mutual_information_of_table (i j : string)
    (baskets : list (gset string)) :
  (0 < count_if (λ b, (i ∈ b) ∧ (j ∈ b)) baskets)%Z →
  ∃ t, ContingencyTable.__init__ i j baskets = Ok t
    ∧ local_mutual_information i j baskets
      = Ok (Rlog2 (IZR (ContingencyTable.O_11 t)
                   / ContingencyTable.E_11 t)
            + Rlog2 (IZR (total_len baskets)
                     / IZR (ContingencyTable.N t)))%R.
Proof.
  intros HO.
  assert (baskets ≠ []) as Hne
    by (intros ->; rewrite count_if_nil in HO; lia).
  destruct (local_mutual_information_pos i j baskets HO) as [HE ->].
  destruct (cooccurrence_total i j baskets HO) as [HN _].
  pose proof (cooccurrence_le_freq i j baskets) as [Hi Hj].
  pose proof (cells_total i j baskets) as Htot.
  pose proof (row_1_freq i j baskets) as Hrow.
  pose proof (col_1_freq i j baskets) as Hcol.
  assert (0 < Z.of_nat (length baskets))%Z as Hlen
    by (destruct baskets; [done | simpl length; lia]).
  eexists. split; [by apply init_nonempty|]. simpl.
  rewrite Hrow, Hcol.
  set (O := count_if (λ b, (i ∈ b) ∧ (j ∈ b)) baskets) in *.
  set (fi := count_if (λ b, i ∈ b) baskets) in *.
  set (fj := count_if (λ b, j ∈ b) baskets) in *.
  set (n := (fj + _)%Z).
  assert (n = Z.of_nat (length baskets)) as Hn by (subst n; lia).
  assert (0 < IZR n)%R by (apply IZR_lt; lia).
  assert (0 < IZR (total_len baskets))%R by (apply IZR_lt; lia).
  assert (0 < IZR O)%R by (apply IZR_lt; lia).
  assert (0 < IZR (fi * fj))%R by (apply IZR_lt; nia).
  rewrite <- Rlog2_mult.
  - do 2 f_equal. field. lra.
  - apply Rdiv_lt_0_compat; [done|]. by apply Rdiv_lt_0_compat.
  - by apply Rdiv_lt_0_compat.
Qed.

Lemma local_mutual_information_of_table_witness :
  (0 < count_if (λ b, ("A" ∈ b) ∧ ("B" ∈ b)) sample_corpus)%Z
  ∧ ∃ t, ContingencyTable.__init__ "A" "B" sample_corpus = Ok t
    ∧ local_mutual_information "A" "B" sample_corpus
      = Ok (Rlog2 (IZR (ContingencyTable.O_11 t)
                   / ContingencyTable.E_11 t)
            + Rlog2 (IZR (total_len sample_corpus)
                     / IZR (ContingencyTable.N t)))%R.
Proof.
  assert (0 < count_if (λ b, ("A" ∈ b) ∧ ("B" ∈ b)) sample_corpus)%Z
    as HO by (vm_compute; reflexivity).
  split; [exact HO|].
  exact (local_mutual_information_of_table "A" "B" sample_corpus HO).
Defined.

(** X12. In exact arithmetic, when the two items occur together at least
    once, the local mutual
    information is at most the base-2 logarithm of the total number of
    item occurrences over the frequency of either item. *)
Theorem local_mutual_information_upper_bound (i j : string)
    (baskets : list (gset string)) :
  (0 < count_if (λ b, (i ∈ b) ∧ (j ∈ b)) baskets)%Z →
  ∃ v, local_mutual_information i j baskets = Ok v
    ∧ (v <= Rlog2 (IZR (total_len baskets)
                   / IZR (count_if (λ b, i ∈ b) baskets)))%R
    ∧ (v <= Rlog2 (IZR (total_len baskets)
                   / IZR (count_if (λ b, j ∈ b) baskets)))%R.
Proof.
  intros HO.
  destruct (local_mutual_information_pos i j baskets HO) as [HE ->].
  destruct (cooccurrence_total i j baskets HO) as [HN _].
  pose proof (cooccurrence_le_freq i j baskets) as [Hi Hj].
  set (O := count_if (λ b, (i ∈ b) ∧ (j ∈ b)) baskets) in *.
  set (fi := count_if (λ b, i ∈ b) baskets) in *.
  set (fj := count_if (λ b, j ∈ b) baskets) in *.
  set (n := total_len baskets) in *.
  assert (0 < IZR n)%R by (apply IZR_lt; lia).
  assert (0 < IZR O)%R as HOr by (apply IZR_lt; lia).
  assert (0 < IZR fi)%R by (apply IZR_lt; lia).
  assert (0 < IZR fj)%R by (apply IZR_lt; lia).
  assert (IZR O <= IZR fi)%R as Hir by (by apply IZR_le).
  assert (IZR O <= IZR fj)%R as Hjr by (by apply IZR_le).
  eexists. split; [done|].
  rewrite mult_IZR in *.
  assert (0 < IZR O / (IZR fi * IZR fj / IZR n))%R as Hx
    by (by apply Rdiv_lt_0_compat).
  split; apply Rlog2_le; try exact Hx.
  - replace (IZR O / (IZR fi * IZR fj / IZR n))%R
      with (IZR n / IZR fi * (IZR O / IZR fj))%R by (field; lra).
    rewrite <- (Rmult_1_r (IZR n / IZR fi)) at 2.
    apply Rmult_le_compat_l; [left; by apply Rdiv_lt_0_compat|].
    apply (Rmult_le_reg_r (IZR fj)); [done|].
    replace (IZR O / IZR fj * IZR fj)%R with (IZR O) by (field; lra).
    lra.
  - replace (IZR O / (IZR fi * IZR fj / IZR n))%R
      with (IZR n / IZR fj * (IZR O / IZR fi))%R by (field; lra).
    rewrite <- (Rmult_1_r (IZR n / IZR fj)) at 2.
    apply Rmult_le_compat_l; [left; by apply Rdiv_lt_0_compat|].
    apply (Rmult_le_reg_r (IZR fi)); [done|].
    replace (IZR O / IZR fi * IZR fi)%R with (IZR O) by (field; lra).
    lra.
Qed.

Lemma local_mutual_information_upper_bound_witness :
  (0 < count_if (λ b, ("A" ∈ b) ∧ ("B" ∈ b)) sample_corpus)%Z
  ∧ ∃ v, local_mutual_information "A" "B" sample_corpus = Ok v
    ∧ (v <= Rlog2 (IZR (total_len sample_corpus)
                   / IZR (count_if (λ b, "A" ∈ b) sample_corpus)))%R
    ∧ (v <= Rlog2 (IZR (total_len sample_corpus)
                   / IZR (count_if (λ b, "B" ∈ b) sample_corpus)))%R.
Proof.
  assert (0 < count_if (λ b, ("A" ∈ b) ∧ ("B" ∈ b)) sample_corpus)%Z
    as HO by (vm_compute; reflexivity).
  split; [exact HO|].
  exact (local_mutual_information_upper_bound "A" "B" sample_corpus HO).
Defined.

(** ** The pairs of items visited by the script *)

Lemma string_ltb_irrefl (a : string) : String.ltb a a = false.
Proof.
  unfold String.ltb. pose proof (String.compare_antisym a a) as H.
  destruct (String.compare a a); done.
Qed.

Lemma string_ltb_asym (a b : string) :
  String.ltb a b = true → String.ltb b a = false.
Proof.
  unfold String.ltb. rewrite (String.compare_antisym b a).
  destruct (String.compare a b); done.
Qed.

Lemma string_ltb_total (a b : string) :
  a ≠ b → String.ltb a b = true ∨ String.ltb b a = true.
Proof.
  intros Hne. unfold String.ltb. rewrite (String.compare_antisym b a).
  destruct (String.compare a b) eqn:Hc; simpl; auto.
  destruct Hne. by apply String.compare_eq_iff.
Qed.

Lemma elem_of_item_pairs (items : list string) (a b : string) :
  (a, b) ∈ item_pairs items
  ↔ a ∈ items ∧ b ∈ items ∧ String.ltb a b = true.
Proof.
  unfold item_pairs. rewrite list_elem_of_bind. split.
  - intros (i & Hin & Hi). apply list_elem_of_bind in Hin as (j & Hin & Hj).
    destruct (String.ltb i j) eqn:Hlt; [|by apply elem_of_nil in Hin].
    apply list_elem_of_singleton in Hin. by simplify_eq.
  - intros (Ha & Hb & Hlt). exists a. split; [|done].
    apply list_elem_of_bind. exists b. split; [|done].
    rewrite Hlt. by apply list_elem_of_singleton.
Qed.

(** X13. The filter [i < j] keeps each pair of different items under exactly
    one of its two orders and no pair of an item with itself; every key
    is made of two items of the list. *)
Theorem item_pairs_one_order (items : list string) :
  (∀ a b, a ∈ items → b ∈ items → a ≠ b →
     ((a, b) ∈ item_pairs items ∧ (b, a) ∉ item_pairs items)
     ∨ ((b, a) ∈ item_pairs items ∧ (a, b) ∉ item_pairs items))
  ∧ (∀ a, (a, a) ∉ item_pairs items)
  ∧ (∀ a b, (a, b) ∈ item_pairs items → a ∈ items ∧ b ∈ items).
Proof.
  split; [|split].
  - intros a b Ha Hb Hne.
    destruct (string_ltb_total a b Hne) as [Hlt|Hlt];
      [left|right]; (split; [by apply elem_of_item_pairs|]);
      rewrite elem_of_item_pairs; intros (_ & _ & Hlt');
      apply string_ltb_asym in Hlt; congruence.
  - intros a. rewrite elem_of_item_pairs. intros (_ & _ & Hlt).
    rewrite string_ltb_irrefl in Hlt. done.
  - intros a b. rewrite elem_of_item_pairs. tauto.
Qed.

Lemma item_pairs_one_order_witness :
  ("Car", "Milk") ∈ item_pairs ITEMS
  ∧ ("Milk", "Car") ∉ item_pairs ITEMS.
Proof.
  destruct (item_pairs_one_order ITEMS) as (Hone & _ & _).
  destruct (Hone "Car" "Milk") as [H|[H _]].
  - apply (bool_decide_unpack _). vm_compute. exact I.
  - apply (bool_decide_unpack _). vm_compute. exact I.
  - discriminate.
  - exact H.
  - apply elem_of_item_pairs in H as (_ & _ & H). discriminate H.
Defined.

(** X14. On a list of items without repetition no key is visited twice. *)
Theorem item_pairs_NoDup (items : list string) :
  NoDup items → NoDup (item_pairs items).
Proof.
  intros Hnd. unfold item_pairs. apply NoDup_bind; [| |done].
  - intros i1 i2 [a b] _ _ H1 H2.
    apply list_elem_of_bind in H1 as (j1 & H1 & _).
    apply list_elem_of_bind in H2 as (j2 & H2 & _).
    destruct (String.ltb i1 j1); [|by apply elem_of_nil in H1].
    destruct (String.ltb i2 j2); [|by apply elem_of_nil in H2].
    apply list_elem_of_singleton in H1, H2. congruence.
  - intros i _. apply NoDup_bind; [| |done].
    + intros j1 j2 [a b] _ _ H1 H2.
      destruct (String.ltb i j1); [|by apply elem_of_nil in H1].
      destruct (String.ltb i j2); [|by apply elem_of_nil in H2].
      apply list_elem_of_singleton in H1, H2. congruence.
    + intros j _. destruct (String.ltb i j);
        [apply NoDup_singleton|apply NoDup_nil_2].
Qed.

Lemma item_pairs_NoDup_witness :
  NoDup ITEMS ∧ NoDup (item_pairs ITEMS).
Proof.
  assert (NoDup ITEMS) as Hnd
    by (apply (bool_decide_unpack _); vm_compute; exact I).
  split; [exact Hnd|]. exact (item_pairs_NoDup ITEMS Hnd).
Defined.

(** ** The dictionaries of the script *)

Section DictOfPairs.

Context {V : Type} (f : string → string → result V).

Let step (acc : result (gmap (string * string) V)) (p : string * string) :=
  let '(i, j) := p in d ← acc; v ← f i j; mret (<[(i, j) := v]> d).

(** After an exception nothing more is computed. *)
Lemma dict_fold_raise (e : exn) (ps : list (string * string)) :
  foldl step (Raise e) ps = Raise e.
Proof. induction ps as [|[a b] ps IH]; [reflexivity|exact IH]. Qed.

Lemma dict_fold_first_raise (e : exn) (a b : string)
    (ps : list (string * string)) (d0 : gmap (string * string) V) :
  f a b = Raise e → foldl step (Ok d0) ((a, b) :: ps) = Raise e.
Proof.
  intros He. simpl. rewrite He. simpl. apply dict_fold_raise.
Qed.

(** When no value raises, the dictionary holds the value of every key
    visited and keeps its other entries. *)
Lemma dict_fold_ok (ps : list (string * string))
    (d0 : gmap (string * string) V) :
  (∀ a b, (a, b) ∈ ps → ∃ v, f a b = Ok v) →
  ∃ d, foldl step (Ok d0) ps = Ok d
    ∧ ∀ a b v, d !! (a, b) = Some v
        ↔ ((a, b) ∈ ps ∧ f a b = Ok v)
          ∨ (((a, b) ∉ ps) ∧ d0 !! (a, b) = Some v).
Proof.
  revert d0. induction ps as [|[a0 b0] ps IH]; intros d0 Hok.
  - exists d0. split; [reflexivity|]. intros a b v. split.
    + intros H. right. split; [apply not_elem_of_nil|done].
    + intros [[H _]|[_ H]]; [by apply elem_of_nil in H|done].
  - destruct (Hok a0 b0) as [v0 Hv0]; [left|].
    destruct (IH (<[(a0, b0) := v0]> d0)) as (d & Hd & Hlook).
    { intros a b Hin. apply Hok. by right. }
    exists d. split; [simpl; rewrite Hv0; exact Hd|].
    intros a b v. rewrite Hlook, !elem_of_cons.
    destruct (decide ((a, b) = (a0, b0))) as [Heq|Hne].
    + injection Heq as -> ->. rewrite lookup_insert_eq.
      split.
      * intros [[Hin Hf]|[Hnin [= <-]]]; left; split; auto.
      * intros [[_ Hf]|[Hnin _]]; [|destruct Hnin; by left].
        destruct (decide ((a0, b0) ∈ ps)) as [Hin|Hnin]; [by left|].
        right. split; [done|]. congruence.
    + rewrite lookup_insert_ne by done. split.
      * intros [[Hin Hf]|[Hnin Hd0]]; [left; by auto|].
        right. split; [|done]. intros [?|?]; done.
      * intros [[[?|Hin] Hf]|[Hnin Hd0]]; [done|left; by auto|].
        right. split; [|done]. intros Hin. apply Hnin. by right.
Qed.

Lemma dict_of_pairs_ok (items : list string) :
  (∀ a b, (a, b) ∈ item_pairs items → ∃ v, f a b = Ok v) →
  ∃ d, dict_of_pairs f items = Ok d
    ∧ ∀ a b v, d !! (a, b) = Some v
        ↔ (a, b) ∈ item_pairs items ∧ f a b = Ok v.
Proof.
  intros Hok.
  destruct (dict_fold_ok (item_pairs items) ∅ Hok) as (d & Hd & Hlook).
  exists d. split; [exact Hd|].
  intros a b v. rewrite Hlook, lookup_empty. split.
  - intros [H|[_ H]]; [exact H|discriminate H].
  - intros H. left. exact H.
Qed.

End DictOfPairs.

Lemma local_mutual_information_total (i j : string)
    (baskets : list (gset string)) :
  ∃ v, local_mutual_information i j baskets = Ok v.
Proof.
  pose proof (cooccurrence_nonneg i j baskets) as HO.
  destruct (decide (count_if (λ b, (i ∈ b) ∧ (j ∈ b)) baskets = 0%Z))
    as [Hz|Hnz].
  - eexists. by apply local_mutual_information_zero.
  - eexists. apply local_mutual_information_pos. lia.
Qed.

(** X15. The dictionary [lmi] of the script is always built, whatever the
    items and the baskets; its keys are the pairs visited, each with its
    local mutual information; and for any two different items it holds
    their score, under one of the two keys. *)
Theorem lmi_dict_complete (items : list string)
    (baskets : list (gset string)) :
  ∃ d,
    dict_of_pairs (λ i j, local_mutual_information i j baskets) items
    = Ok d
    ∧ (∀ a b v, d !! (a, b) = Some v
         ↔ (a, b) ∈ item_pairs items
           ∧ local_mutual_information a b baskets = Ok v)
    ∧ (∀ a b, a ∈ items → b ∈ items → a ≠ b →
         ∃ v, local_mutual_information a b baskets = Ok v
           ∧ (d !! (a, b) = Some v ∨ d !! (b, a) = Some v)).
Proof.
  destruct (dict_of_pairs_ok
              (λ i j, local_mutual_information i j baskets) items)
    as (d & Hd & Hlook).
  { intros a b _. apply local_mutual_information_total. }
  exists d. split; [exact Hd|]. split; [exact Hlook|].
  intros a b Ha Hb Hne.
  destruct (local_mutual_information_total a b baskets) as [v Hv].
  exists v. split; [exact Hv|].
  destruct (string_ltb_total a b Hne) as [Hlt|Hlt]; [left|right];
    apply Hlook; (split; [by apply elem_of_item_pairs|]);
    [exact Hv|].
  rewrite local_mutual_information_comm. exact Hv.
Qed.

Lemma lmi_dict_complete_witness :
  ∃ d v,
    dict_of_pairs (λ i j, local_mutual_information i j sample_corpus)
      ITEMS = Ok d
    ∧ local_mutual_information "Milk" "Car" sample_corpus = Ok v
    ∧ (d !! ("Milk", "Car") = Some v ∨ d !! ("Car", "Milk") = Some v).
Proof.
  destruct (lmi_dict_complete ITEMS sample_corpus) as (d & Hd & _ & Hany).
  destruct (Hany "Milk" "Car") as (v & Hv & Hor).
  - apply (bool_decide_unpack _). vm_compute. exact I.
  - apply (bool_decide_unpack _). vm_compute. exact I.
  - discriminate.
  - exists d, v. split; [exact Hd|]. split; [exact Hv|exact Hor].
Defined.

(** X16. The dictionary [ct] of the script is built on every non-empty
    corpus, and holds the table of every pair visited; on the empty
    corpus, as soon as there is a pair to visit, the comprehension ends
    with [ZeroDivisionError]. *)
Theorem ct_dict_built (items : list string)
    (baskets : list (gset string)) :
  (baskets ≠ [] →
   ∃ d,
     dict_of_pairs (λ i j, ContingencyTable.__init__ i j baskets) items
     = Ok d
     ∧ ∀ a b t, d !! (a, b) = Some t
         ↔ (a, b) ∈ item_pairs items
           ∧ ContingencyTable.__init__ a b baskets = Ok t)
  ∧ (item_pairs items ≠ [] →
     dict_of_pairs (λ i j, ContingencyTable.__init__ i j []) items
     = Raise ZeroDivisionError).
Proof.
  split.
  - intros Hne. apply dict_of_pairs_ok. intros a b _.
    eexists. by apply init_nonempty.
  - intros Hps. unfold dict_of_pairs.
    destruct (item_pairs items) as [|[a b] ps]; [done|].
    by apply dict_fold_first_raise.
Qed.

Lemma ct_dict_built_witness :
  (∃ d,
     dict_of_pairs (λ i j, ContingencyTable.__init__ i j sample_corpus)
       ITEMS = Ok d)
  ∧ dict_of_pairs (λ i j, ContingencyTable.__init__ i j []) ITEMS
    = Raise ZeroDivisionError.
Proof.
  destruct (ct_dict_built ITEMS sample_corpus) as [Hok _].
  destruct (ct_dict_built ITEMS []) as [_ Herr].
  split.
  - destruct Hok as (d & Hd & _); [discriminate|]. exists d. exact Hd.
  - apply Herr. vm_compute. discriminate.
Defined.

(** ** The number of pairs visited *)

Section PairCount.

Implicit Types (a : string) (l : list string).

Lemma length_bind_app {A B : Type} (f g : A → list B) (xs : list A) :
  length (xs ≫= λ x, f x ++ g x)
  = length (xs ≫= f) + length (xs ≫= g).
Proof.
  induction xs as [|x xs IH]; [reflexivity|].
  rewrite !bind_cons, !length_app, IH. lia.
Qed.

(** Every item of a list is above, below or equal to a given one. *)
Lemma trichotomy_count a l :
  length (l ≫= λ j, if String.ltb a j then [(a, j)] else [])
  + length (l ≫= λ j, if String.ltb j a then [(j, a)] else [])
  + length (filter (a =.) l)
  = length l.
Proof.
  induction l as [|x l IH]; [reflexivity|].
  rewrite !bind_cons, !length_app, filter_cons. simpl length.
  destruct (decide (a = x)) as [<-|Hne].
  - rewrite string_ltb_irrefl. simpl length. lia.
  - destruct (string_ltb_total a x Hne) as [Hlt|Hlt];
      rewrite Hlt, (string_ltb_asym _ _ Hlt); simpl length; lia.
Qed.

Lemma pairs_count l1 l2 :
  length (l1 ≫= λ i, l2 ≫= λ j,
            if String.ltb i j then [(i, j)] else [])
  + length (l2 ≫= λ i, l1 ≫= λ j,
              if String.ltb i j then [(i, j)] else [])
  + length (l1 ≫= λ i, filter (i =.) l2)
  = length l1 * length l2.
Proof.
  induction l1 as [|a l1 IH].
  - induction l2 as [|x l2 IH2]; [reflexivity|].
    rewrite bind_cons, length_app. exact IH2.
  - rewrite !bind_cons, !length_app, length_cons.
    assert (length (l2 ≫= λ i, (a :: l1) ≫= λ j,
                      if String.ltb i j then [(i, j)] else [])
            = length (l2 ≫= λ i,
                        if String.ltb i a then [(i, a)] else [])
              + length (l2 ≫= λ i, l1 ≫= λ j,
                          if String.ltb i j then [(i, j)] else []))
      as -> by (rewrite <- length_bind_app; reflexivity).
    pose proof (trichotomy_count a l2). lia.
Qed.

Lemma filter_eq_absent a l :
  a ∉ l → length (filter (a =.) l) = 0.
Proof.
  induction l as [|x l IH]; intros Hnin; [reflexivity|].
  apply not_elem_of_cons in Hnin as [Hne Hnin].
  rewrite filter_cons. destruct (decide (a = x)); [done|by apply IH].
Qed.

Lemma filter_eq_NoDup a l :
  NoDup l → a ∈ l → length (filter (a =.) l) = 1.
Proof.
  induction 1 as [|x l Hx Hnd IH]; intros Hin.
  - by apply elem_of_nil in Hin.
  - rewrite filter_cons. destruct (decide (a = x)) as [<-|Hne].
    + simpl length. f_equal. by apply filter_eq_absent.
    + apply IH. apply elem_of_cons in Hin as [?|?]; done.
Qed.

Lemma diagonal_count l l' :
  NoDup l → l' ⊆ l →
  length (l' ≫= λ i, filter (i =.) l) = length l'.
Proof.
  intros Hnd. induction l' as [|a l' IH]; intros Hsub; [reflexivity|].
  rewrite bind_cons, length_app, IH.
  - rewrite filter_eq_NoDup; [done..|]. apply Hsub. left.
  - intros x Hx. apply Hsub. by right.
Qed.

End PairCount.

(** X17. On [n] items without repetition the script visits [n * (n - 1) / 2]
    pairs. *)
Theorem item_pairs_length (items : list string) :
  NoDup items →
  2 * length (item_pairs items) = length items * (length items - 1).
Proof.
  intros Hnd. pose proof (pairs_count items items) as Hcount.
  rewrite diagonal_count in Hcount by done.
  fold (item_pairs items) in Hcount. nia.
Qed.

Lemma item_pairs_length_witness :
  NoDup ITEMS ∧ length (item_pairs ITEMS) = 36.
Proof.
  assert (NoDup ITEMS) as Hnd
    by (apply (bool_decide_unpack _); vm_compute; exact I).
  split; [exact Hnd|].
  pose proof (item_pairs_length ITEMS Hnd) as Hlen.
  change (length ITEMS) with 9 in Hlen. lia.
Defined.
